(** * PacScan: package scanning over the node_modules layout

    A shallow embedding of [src/pacscan.js].  The module resolves a base
    directory (from the [path] option or from the calling module), optionally
    climbs the enclosing [node_modules] directories, enumerates the
    [package.json] files below the base directory and reads one record per
    file.  Two module-level [Map]s cache the enumerated file paths and the
    climbed parent directories.

    How the program is modelled:
    - Paths are JavaScript strings; they are [string]s here, and the
      functions of Node's POSIX [path] module that the source calls
      ([dirname], [basename], [join]) are written out in [Module path].
    - The collaborators [glob], [pkg-dir], [fs.stat], [require] and
      [knockknock] are the fields of a [World].  They are functions of an
      unmodified file system and call stack.  [fs.stat] fails for a path it
      cannot reach, and the scan then fails with its error; the searches
      answer, and every [package.json] that is read can be loaded.
    - The methods of [PacScan] take callbacks, as in the source.  A method
      is a function from the module [State] (the two caches, and a log of
      the collaborator calls) to a [completion] and a new state.  The
      synchronous flavour calls the callback at once; the asynchronous one
      calls it in [then], and a promise is represented by the way it
      settles.  One scan runs at a time.
    - The recursion of [_findBaseDirectory] takes fuel.  The entry points
      give it more than the length of the path it starts from, which is
      enough whenever [pkg-dir] answers with the path or a directory above
      it ([scans_complete]). *)

From Stdlib Require Import Ascii.
From stdpp Require Import gmap strings list sorting.

Open Scope string_scope.

(** ** Node's [path] module (POSIX flavour) *)

Module path.

Definition is_slash (c : option ascii) : bool :=
  match c with
  | Some c => Ascii.eqb c "/"
  | None => false
  end.

(** The backwards loop of [dirname]: [i] runs from [length - 1] down to 1,
    trailing slashes are skipped while [matchedSlash] holds and the first
    slash after a non-slash character ends the directory part. *)
Fixpoint dirname_end (p : string) (i : nat) (matchedSlash : bool) : option nat :=
  match i with
  | 0 => None
  | S i' =>
      if is_slash (String.get i p) then
        if matchedSlash then dirname_end p i' true else Some i
      else dirname_end p i' false
  end.

Definition dirname (p : string) : string :=
  if Nat.eqb (String.length p) 0 then "."
  else
    let hasRoot := is_slash (String.get 0 p) in
    match dirname_end p (String.length p - 1) true with
    | None => if hasRoot then "/" else "."
    | Some e => if hasRoot && Nat.eqb e 1 then "//" else String.substring 0 e p
    end.

(** The backwards loop of [basename] (no extension argument): [n] is one
    more than the index under inspection; the result is the pair
    [(start, end)]. *)
Fixpoint basename_scan (p : string) (n : nat) (matchedSlash : bool)
    (end_ : option nat) : nat * option nat :=
  match n with
  | 0 => (0, end_)
  | S i =>
      if is_slash (String.get i p) then
        if matchedSlash then basename_scan p i true end_ else (S i, end_)
      else
        match end_ with
        | None => basename_scan p i false (Some (S i))
        | Some _ => basename_scan p i matchedSlash end_
        end
  end.

Definition basename (p : string) : string :=
  match basename_scan p (String.length p) true None with
  | (start, Some e) => String.substring start (e - start) p
  | (_, None) => ""
  end.

(** The segments of a path between its slashes. *)
Fixpoint segments (p : string) : list string :=
  match p with
  | EmptyString => [""]
  | String c p' =>
      if Ascii.eqb c "/" then "" :: segments p'
      else
        match segments p' with
        | s :: rest => String c s :: rest
        | [] => [String c ""]
        end
  end.

(** [normalizeString]: empty and [.] segments are dropped, [..] removes
    the segment before it when there is one that is not itself [..], and
    is kept only when the path may climb above its root.  [res] is the
    stack of kept segments, last one first. *)
Fixpoint normalizeString (segs : list string) (allowAboveRoot : bool)
    (res : list string) : list string :=
  match segs with
  | [] => rev res
  | seg :: segs' =>
      if String.eqb seg "" || String.eqb seg "." then
        normalizeString segs' allowAboveRoot res
      else if String.eqb seg ".." then
        match res with
        | top :: res' =>
            if String.eqb top ".." then
              normalizeString segs' allowAboveRoot
                (if allowAboveRoot then ".." :: res else res)
            else normalizeString segs' allowAboveRoot res'
        | [] =>
            normalizeString segs' allowAboveRoot
              (if allowAboveRoot then [".."] else [])
        end
      else normalizeString segs' allowAboveRoot (seg :: res)
  end.

Definition normalize (p : string) : string :=
  if Nat.eqb (String.length p) 0 then "."
  else
    let isAbsolute := is_slash (String.get 0 p) in
    let trailingSeparator := is_slash (String.get (String.length p - 1) p) in
    let p' := String.concat "/" (normalizeString (segments p) (negb isAbsolute) []) in
    if Nat.eqb (String.length p') 0 then
      if isAbsolute then "/" else if trailingSeparator then "./" else "."
    else
      let p'' := if trailingSeparator then p' ++ "/" else p' in
      if isAbsolute then "/" ++ p'' else p''.

(** [join]: the non-empty arguments are glued with slashes and the result
    is normalized. *)
Definition join (args : list string) : string :=
  match filter (fun a => String.length a ≠ 0) args with
  | [] => "."
  | parts => normalize (String.concat "/" parts)
  end.

End path.

(** ** Data model *)

(** The [main] entry of a parsed [package.json]: a string when it names a
    file, otherwise missing or one of the falsy JSON values.  (A truthy value
    that is not a string is no manifest of the package format and is left
    out: [path.join] refuses it.) *)
Inductive json : Type :=
  | JUndefined
  | JNull
  | JFalse
  | JZero
  | JString (s : string).

(** JavaScript truthiness, as tested by [pkg.main ? ... : null]. *)
Definition truthy (v : json) : bool :=
  match v with
  | JString s => negb (String.eqb s "")
  | _ => false
  end.

Definition json_string (v : json) : string :=
  match v with
  | JString s => s
  | _ => ""
  end.

(** What [require] returns for a [package.json] file. *)
Record Manifest : Type := {
  pkg_main : json;
  pkg_name : string;
  pkg_version : string
}.

(** [pacscan~Package]. *)
Record Package : Type := {
  directory : string;
  main : option string;
  name : string;
  version : string
}.

(** [knockknock~Options], as far as the source touches them. *)
Record KnockknockOptions : Type := {
  excludes : option (list string);
  limit : option nat;
  offset : option nat
}.

(** [pacscan~Options]: [includeParents] by its truthiness, and [path],
    which is [None] when the option is missing or [null]. *)
Record Options : Type := {
  includeParents : bool;
  knockknock : option KnockknockOptions;
  path : option string
}.

(** [knockknock~Caller]: the file of the calling module and its package. *)
Record Caller : Type := {
  file : option string;
  package : option Package
}.

(** The options handed to [glob]. *)
Record GlobOptions : Type := {
  cwd : string;
  nodir : bool;
  nosort : bool
}.

(** The collaborators of the module, over an unmodified file system:
    [glob(pattern, options)], [pkgDir(path)], [fs.stat(path)],
    [require(path)] for a [package.json] and [whoIsThere(options)].

    [stat] fails for a path it cannot reach, with the code of the error
    ([ENOENT] for a path that does not exist), and otherwise answers
    whether the path is a directory ([stats.isDirectory()]).

    [require] gives the parsed content of a [package.json]: the worlds are
    those in which every [package.json] that is read can be loaded.  A file
    that cannot be loaded makes [require], and the scan that reads it,
    throw; such runs are not described here. *)
Record World : Type := {
  glob : string -> GlobOptions -> list string;
  pkgDir : string -> option string;
  stat : string -> string + bool;
  require : string -> Manifest;
  whoIsThere : KnockknockOptions -> list Caller
}.

(** A call of a collaborator that touches the file system or the stack. *)
Inductive Call : Type :=
  | CallGlob (pattern : string) (o : GlobOptions)
  | CallPkgDir (p : string)
  | CallStat (p : string)
  | CallWhoIsThere (o : KnockknockOptions).

(** The module-level state: the two caches, and the collaborator calls made
    so far (most recent first). *)
Record State : Type := {
  availablePackagesCache : gmap string (list string);
  parentPackageDirectoriesCache : gmap string string;
  calls : list Call
}.

Definition initial : State :=
  {| availablePackagesCache := ∅; parentPackageDirectoriesCache := ∅; calls := [] |}.

Definition record_calls (cs : list Call) (st : State) : State :=
  {| availablePackagesCache := availablePackagesCache st;
     parentPackageDirectoriesCache := parentPackageDirectoriesCache st;
     calls := rev cs ++ calls st |}.

Definition availablePackagesCache_set (k : string) (v : list string) (st : State) : State :=
  {| availablePackagesCache := <[k := v]> (availablePackagesCache st);
     parentPackageDirectoriesCache := parentPackageDirectoriesCache st;
     calls := calls st |}.

Definition parentPackageDirectoriesCache_set (k v : string) (st : State) : State :=
  {| availablePackagesCache := availablePackagesCache st;
     parentPackageDirectoriesCache := <[k := v]> (parentPackageDirectoriesCache st);
     calls := calls st |}.

(** ** Results: values, promises and thrown errors *)

(** The errors of a scan: an [Error] made by the module, with its message,
    and the error of a failed system call of [fs], with its [code], its
    [syscall] and its [path]. *)
Inductive js_error : Type :=
  | Error (message : string)
  | SystemError (code syscall path : string).

(** A promise is represented by the way it settles. *)
Inductive settled : Type :=
  | Fulfilled (pkgs : list Package)
  | Rejected (e : js_error).

(** What a callback of the scan returns: the packages, or a promise. *)
Inductive scan_value : Type :=
  | Plain (pkgs : list Package)
  | Promise (s : settled).

(** Why a run left the part of the behaviour that is modelled. *)
Inductive beyond : Type :=
  | OutOfFuel            (* the climb was cut off *)
  | NullBaseDirectory.   (* [null] reached the enumeration as its directory *)

Inductive completion : Type :=
  | Normal (v : scan_value)
  | Throw (e : js_error)
  | Outside (b : beyond).

(** A computation over the module state. *)
Definition M : Type := State -> completion * State.

(** How the promise returned by [then] settles, from the completion of its
    handler: a returned promise is adopted, a returned value fulfils, a
    thrown error rejects. *)
Definition settle (c : completion) : completion :=
  match c with
  | Normal (Plain pkgs) => Normal (Promise (Fulfilled pkgs))
  | Normal (Promise s) => Normal (Promise s)
  | Throw e => Normal (Promise (Rejected e))
  | Outside b => Outside b
  end.

(** [promise.then(callback)] for a promise fulfilled with [v]. *)
Definition Promise_then {A : Type} (v : A) (callback : A -> M) : M :=
  fun st => let '(c, st') := callback v st in (settle c, st').

(** [Promise.resolve(x)], where evaluating [x] completed as [c]: an error
    thrown while [x] is evaluated escapes. *)
Definition Promise_resolve (c : completion) : completion :=
  match c with
  | Throw e => Throw e
  | _ => settle c
  end.

(** [Array.prototype.sort] without a comparator: strings are compared code
    unit by code unit, and a proper prefix comes first.  On the characters
    of [string] this is the order [String.le]; it is total and
    antisymmetric, so the sorted array is determined. *)
Definition sort (l : list string) : list string := merge_sort String.le l.

(** ** The class [PacScan] *)

Definition MissingSourceFile : js_error :=
  Error "Could not resolve base directory as file was missing".

Module PacScan.
Section PacScan.

Variable w : World.

(** [_findPackagePaths]: every pattern is searched, [Promise.all] gathers
    the results, they are concatenated and [callback] runs in a [then]. *)
Definition _findPackagePaths (patterns : list string) (options : GlobOptions)
    (callback : list string -> M) : M :=
  fun st =>
    let filePaths := concat (map (fun pattern => glob w pattern options) patterns) in
    Promise_then filePaths callback
      (record_calls (map (fun pattern => CallGlob pattern options) patterns) st).

(** [_findPackagePathsSync]. *)
Definition _findPackagePathsSync (patterns : list string) (options : GlobOptions)
    (callback : list string -> M) : M :=
  fun st =>
    let filePaths := concat (map (fun pattern => glob w pattern options) patterns) in
    callback filePaths
      (record_calls (map (fun pattern => CallGlob pattern options) patterns) st).

(** [_getPackage]. *)
Definition _getPackage (dirPath : string) : Package :=
  let pkg := require w (path.join [dirPath; "package.json"]) in
  {| directory := dirPath;
     main := if truthy (pkg_main pkg)
             then Some (path.join [dirPath; json_string (pkg_main pkg)])
             else None;
     name := pkg_name pkg;
     version := pkg_version pkg |}.

(** [_parseOptions]: [None] stands for missing (falsy) options. *)
Definition _parseOptions (options : option Options) : Options :=
  let options :=
    match options with
    | Some o => o
    | None => {| includeParents := false; knockknock := None; path := None |}
    end in
  {| includeParents := includeParents options;
     knockknock := knockknock options;
     path := path options |}.

(** The fields [_sync] and [_options] set by the constructor. *)
Variable _sync : bool.
Variable _options : Options.

(** [_findPackageDirectory]. *)
Definition _findPackageDirectory (filePath : string)
    (callback : option string -> M) : M :=
  fun st =>
    let st := record_calls [CallPkgDir filePath] st in
    if _sync then callback (pkgDir w filePath) st
    else Promise_then (pkgDir w filePath) callback st.

(** [_isDirectory]: [fs.statSync] throws when the path cannot be reached,
    and the promise around [fs.stat] is then rejected with the error, so
    that [callback] does not run. *)
Definition _isDirectory (filePath : string) (callback : bool -> M) : M :=
  fun st =>
    let st := record_calls [CallStat filePath] st in
    match stat w filePath with
    | inl code =>
        let error := SystemError code "stat" filePath in
        if _sync then (Throw error, st)
        else (Normal (Promise (Rejected error)), st)
    | inr isDirectory =>
        if _sync then callback isDirectory st
        else Promise_then isDirectory callback st
    end.

(** [_isPackageDirectory]: [filePath === dirPath]. *)
Definition _isPackageDirectory (filePath : string) (callback : bool -> M) : M :=
  _findPackageDirectory filePath
    (fun dirPath => callback (bool_decide (Some filePath = dirPath))).

(** [_findCaller]: the caller's options with [limit] forced to 1 and
    [pacscan] put in front of the excluded packages. *)
Definition _findCaller_options : KnockknockOptions :=
  let excludes0 := ["pacscan"] in
  let options :=
    match knockknock _options with
    | Some k => {| excludes := excludes k; limit := Some 1; offset := offset k |}
    | None => {| excludes := None; limit := Some 1; offset := None |}
    end in
  {| excludes := Some (match excludes options with
                       | Some e => (excludes0 ++ e)%list
                       | None => excludes0
                       end);
     limit := limit options;
     offset := offset options |}.

Definition _findCaller (callback : option Caller -> M) : M :=
  fun st =>
    let options := _findCaller_options in
    let st := record_calls [CallWhoIsThere options] st in
    if _sync then callback (head (whoIsThere w options)) st
    else Promise_then (head (whoIsThere w options)) callback st.

Definition patterns : list string :=
  ["**/node_modules/*/package.json"; "**/node_modules/@*/*/package.json"].

(** [_findAvailablePackagePaths]. *)
Definition _findAvailablePackagePaths (dirPath : string)
    (callback : list string -> M) : M :=
  fun st =>
    match availablePackagesCache st !! dirPath with
    | Some cached => callback cached st
    | None =>
        let options := {| cwd := dirPath; nodir := true; nosort := true |} in
        let packagePathFinder :=
          if _sync then _findPackagePathsSync else _findPackagePaths in
        packagePathFinder patterns options
          (fun filePaths => _isPackageDirectory dirPath (fun isPackage =>
             fun st =>
               let filePaths :=
                 if isPackage then "package.json" :: filePaths else filePaths in
               let filePaths :=
                 map (fun filePath => path.join [dirPath; filePath]) (sort filePaths) in
               callback filePaths (availablePackagesCache_set dirPath filePaths st)))
          st
    end.

(** Lines 302-308 of [_findBaseDirectory]: the directory above the package
    directory and its name, one level further up when that name starts
    with [@]. *)
Definition parentDir (childDirPath : string) : string * string :=
  let parentDirPath := path.dirname childDirPath in
  let parentDirName := path.basename parentDirPath in
  if bool_decide (String.get 0 parentDirName = Some "@"%char) then
    let parentDirPath := path.dirname parentDirPath in
    (parentDirPath, path.basename parentDirPath)
  else (parentDirPath, parentDirName).

(** [_findBaseDirectory].  The recursion of the source is on the directory
    above the package found; [fuel] bounds its depth, and a climb that is
    cut off completes as [Outside OutOfFuel]. *)
Fixpoint _findBaseDirectory (fuel : nat) (dirPath : string)
    (callback : option string -> M) : M :=
  fun st =>
    match fuel with
    | 0 => (Outside OutOfFuel, st)
    | S fuel =>
        match parentPackageDirectoriesCache st !! dirPath with
        | Some cached => callback (Some cached) st
        | None =>
            _findPackageDirectory dirPath (fun childDirPath =>
              match childDirPath with
              | None => callback None
              | Some childDirPath =>
                  let '(parentDirPath, parentDirName) := parentDir childDirPath in
                  if String.eqb parentDirName "node_modules" then
                    _findBaseDirectory fuel parentDirPath (fun parentPkgDirPath =>
                      let childDirPath :=
                        match parentPkgDirPath with
                        | Some p => p
                        | None => childDirPath
                        end in
                      callback (Some childDirPath))
                  else
                    fun st =>
                      callback (Some childDirPath)
                        (parentPackageDirectoriesCache_set dirPath childDirPath st)
              end) st
        end
    end.

(** [_resolvePackageFromCaller]. *)
Definition _resolvePackageFromCaller
    (callback : option string -> option Package -> M) : M :=
  _findCaller (fun caller =>
    match caller with
    | None => callback None None
    | Some caller => callback (file caller) (package caller)
    end).

(** [_resolvePackageFromPath]; [filePath] is [this._options.path], which
    is not [null] when this resolver is chosen. *)
Definition _resolvePackageFromPath (filePath : string)
    (callback : option string -> option Package -> M) : M :=
  _findPackageDirectory filePath (fun dirPath =>
    let pkg :=
      match dirPath with
      | Some dirPath => Some (_getPackage dirPath)
      | None => None
      end in
    callback (Some filePath) pkg).

(** [_resolveBaseDirectory].  The callback receives the base directory,
    which is [null] only when the climb found no package at all. *)
Definition _resolveBaseDirectory (callback : option string -> M) : M :=
  let packageResolver :=
    match path _options with
    | Some filePath => _resolvePackageFromPath filePath
    | None => _resolvePackageFromCaller
    end in
  packageResolver (fun filePath pkg =>
    match filePath with
    | None => fun st => (Throw MissingSourceFile, st)
    | Some filePath =>
        match pkg with
        | None =>
            _isDirectory filePath (fun isDirectory =>
              let dirPath := if isDirectory then filePath else path.dirname filePath in
              callback (Some dirPath))
        | Some pkg =>
            let dirPath := directory pkg in
            if negb (includeParents _options) then callback (Some dirPath)
            else _findBaseDirectory (S (String.length dirPath)) dirPath callback
        end
    end).

(** The callback that [scan] hands to [_resolveBaseDirectory]: one record
    per enumerated [package.json] of the base directory.  With [null] for
    the directory the source would hand [null] on to [glob] and
    [path.join]; that run is left out ([Outside NullBaseDirectory]). *)
Definition scanDirectory (dirPath : option string) : M :=
  match dirPath with
  | None => fun st => (Outside NullBaseDirectory, st)
  | Some dirPath =>
      _findAvailablePackagePaths dirPath (fun filePaths =>
        fun st =>
          (Normal (Plain (map (fun filePath => _getPackage (path.dirname filePath))
                            filePaths)), st))
  end.

(** [scan]. *)
Definition scan : M := _resolveBaseDirectory scanDirectory.

End PacScan.
End PacScan.

(** ** The exported functions *)

(** [module.exports = function scan(options)]. *)
Definition scan (w : World) (options : option Options) : M :=
  fun st =>
    let '(c, st') := PacScan.scan w false (PacScan._parseOptions options) st in
    (Promise_resolve c, st').

(** [module.exports.sync]. *)
Definition sync (w : World) (options : option Options) : M :=
  PacScan.scan w true (PacScan._parseOptions options).

(** [module.exports.clearCache]. *)
Definition clearCache (st : State) : State :=
  {| availablePackagesCache := ∅;
     parentPackageDirectoriesCache := ∅;
     calls := calls st |}.

(** ** Paths and what [glob] matches *)

(** The entry [seg] of the directory [p], as a path. *)
Definition entry (p seg : string) : string := p ++ String "/" seg.

(** A directory or file name: not empty and without a slash. *)
Fixpoint slash_free (s : string) : bool :=
  match s with
  | EmptyString => true
  | String c s => negb (Ascii.eqb c "/") && slash_free s
  end.

Definition is_segment (s : string) : bool := negb (String.eqb s "") && slash_free s.

(** A name that [*] and [**] can stand for: a directory or file name that
    does not start with a dot. *)
Definition visible (s : string) : bool :=
  is_segment s && negb (bool_decide (String.get 0 s = Some "."%char)).

(** Whether the path [relative] matches one of the two patterns of the
    module.  Its last name is [package.json] in a directory [_/parent/name];
    for [**/node_modules/*/package.json] the directory [parent] is
    [node_modules], and for [**/node_modules/@*/*/package.json] it starts
    with [@] and lies in a [node_modules].  No name on the way starts with
    a dot. *)
Definition glob_match (pattern relative : string) : bool :=
  let segs := path.segments relative in
  forallb visible segs
  && match rev segs with
     | file :: _ :: parent :: rest =>
         String.eqb file "package.json"
         && (if String.eqb pattern "**/node_modules/*/package.json" then
               String.eqb parent "node_modules"
             else if String.eqb pattern "**/node_modules/@*/*/package.json" then
               bool_decide (String.get 0 parent = Some "@"%char)
               && bool_decide (head rest = Some "node_modules")
             else false)
     | _ => false
     end.

(** What [glob] promises for the patterns of the module: every path it
    reports matches the pattern, and no path is reported twice. *)
Definition glob_contract (w : World) : Prop :=
  forall pattern o,
    pattern ∈ PacScan.patterns ->
    NoDup (glob w pattern o)
    /\ Forall (fun relative => glob_match pattern relative = true) (glob w pattern o).



(** ** Concrete file systems

    A finite file system: its [package.json] files with their parsed
    content, its directories and its other files. *)

Record FileSystem : Type := {
  fs_manifests : list (string * Manifest);
  fs_directories : list string;
  fs_files : list string
}.

Definition fs_lookup {A : Type} (eqb : string -> bool) (d : A)
    (l : list (string * A)) : A :=
  match List.find (fun e => eqb (fst e)) l with
  | Some e => snd e
  | None => d
  end.

Definition has_manifest (fs : FileSystem) (p : string) : bool :=
  existsb (fun e => String.eqb (fst e) (path.join [p; "package.json"])) (fs_manifests fs).

(** [pkg-dir]: the nearest directory, from [p] upwards, that holds a
    [package.json]. *)
Fixpoint fs_pkgDir (fs : FileSystem) (fuel : nat) (p : string) : option string :=
  match fuel with
  | 0 => None
  | S fuel =>
      if has_manifest fs p then Some p
      else if String.eqb (path.dirname p) p then None
      else fs_pkgDir fs fuel (path.dirname p)
  end.

(** What is left of [s] after its beginning [pre]. *)
Fixpoint strip_prefix (pre s : string) : option string :=
  match pre, s with
  | EmptyString, _ => Some s
  | String c pre, String c' s => if Ascii.eqb c c' then strip_prefix pre s else None
  | String _ _, EmptyString => None
  end.

(** The path [p] as seen from the directory [cwd] above it. *)
Definition relative_to (cwd p : string) : option string :=
  strip_prefix (if String.eqb cwd "/" then "/" else cwd ++ "/") p.

(** [glob] on a file system: the [package.json] files below the working
    directory whose relative path matches the pattern, in the order in
    which the file system lists them. *)
Definition fs_glob (fs : FileSystem) (pattern cwd : string) : list string :=
  omap (fun e =>
          match relative_to cwd (fst e) with
          | Some relative => if glob_match pattern relative then Some relative else None
          | None => None
          end) (fs_manifests fs).

(** [fs.stat] on a file system: a path that is neither a directory nor a
    file of it does not exist. *)
Definition fs_stat (fs : FileSystem) (p : string) : string + bool :=
  if existsb (String.eqb p) (fs_directories fs) then inr true
  else if existsb (String.eqb p) (fs_files fs ++ map fst (fs_manifests fs)) then inr false
  else inl "ENOENT".

Definition world_of (fs : FileSystem) (callers : list Caller) : World :=
  {| glob := fun pattern o => fs_glob fs pattern (cwd o);
     pkgDir := fun p => fs_pkgDir fs (S (String.length p)) p;
     stat := fs_stat fs;
     require := fun p =>
       fs_lookup (String.eqb p)
         {| pkg_main := JUndefined; pkg_name := ""; pkg_version := "" |}
         (fs_manifests fs);
     whoIsThere := fun _ => callers |}.

Definition manifest (m : json) (n v : string) : Manifest :=
  {| pkg_main := m; pkg_name := n; pkg_version := v |}.

(** The fixture [flat]: a package with two unscoped and four scoped
    dependencies, one level deep. *)
Definition flat_fs : FileSystem :=
  {| fs_manifests :=
       [ ("/tmp/fixtures/flat/package.json", manifest (JString "index.js") "flat" "1.0.0");
         ("/tmp/fixtures/flat/node_modules/foo/package.json",
           manifest (JString "index.js") "foo" "1.1.0");
         ("/tmp/fixtures/flat/node_modules/bar/package.json",
           manifest (JString "index") "bar" "1.2.0");
         ("/tmp/fixtures/flat/node_modules/@fu/fizz/package.json",
           manifest (JString "index.js") "@fu/fizz" "1.3.1");
         ("/tmp/fixtures/flat/node_modules/@fu/buzz/package.json",
           manifest (JString "index.js") "@fu/buzz" "1.3.2");
         ("/tmp/fixtures/flat/node_modules/@baz/fizz/package.json",
           manifest JUndefined "@baz/fizz" "1.4.1");
         ("/tmp/fixtures/flat/node_modules/@baz/buzz/package.json",
           manifest (JString "index.js") "@baz/buzz" "1.4.2") ];
     fs_directories :=
       [ "/"; "/tmp"; "/tmp/fixtures";
         "/tmp/fixtures/flat"; "/tmp/fixtures/flat/node_modules";
         "/tmp/fixtures/flat/node_modules/foo"; "/tmp/fixtures/flat/node_modules/bar";
         "/tmp/fixtures/flat/node_modules/@fu"; "/tmp/fixtures/flat/node_modules/@baz";
         "/tmp/fixtures/flat/node_modules/@fu/fizz"; "/tmp/fixtures/flat/node_modules/@fu/buzz";
         "/tmp/fixtures/flat/node_modules/@baz/fizz";
         "/tmp/fixtures/flat/node_modules/@baz/buzz" ];
     fs_files :=
       [ "/tmp/fixtures/flat/index.js";
         "/tmp/fixtures/flat/node_modules/foo/index.js";
         "/tmp/fixtures/flat/node_modules/bar/index.js";
         "/tmp/fixtures/flat/node_modules/@fu/fizz/index.js";
         "/tmp/fixtures/flat/node_modules/@fu/buzz/index.js";
         "/tmp/fixtures/flat/node_modules/@baz/fizz/index.js";
         "/tmp/fixtures/flat/node_modules/@baz/buzz/index.js" ] |}.

(** Scanning from [flat]'s own file [index.js]. *)
Definition flat_caller : Caller :=
  {| file := Some "/tmp/fixtures/flat/index.js";
     package := Some {| directory := "/tmp/fixtures/flat";
                        main := Some "/tmp/fixtures/flat/index.js";
                        name := "flat"; version := "1.0.0" |} |}.

Definition flat_world : World := world_of flat_fs [flat_caller].

Definition no_options : Options :=
  {| includeParents := false; knockknock := None; path := None |}.

Definition flat_packages : list Package :=
  [ {| directory := "/tmp/fixtures/flat/node_modules/@baz/buzz";
       main := Some "/tmp/fixtures/flat/node_modules/@baz/buzz/index.js";
       name := "@baz/buzz"; version := "1.4.2" |};
    {| directory := "/tmp/fixtures/flat/node_modules/@baz/fizz";
       main := None; name := "@baz/fizz"; version := "1.4.1" |};
    {| directory := "/tmp/fixtures/flat/node_modules/@fu/buzz";
       main := Some "/tmp/fixtures/flat/node_modules/@fu/buzz/index.js";
       name := "@fu/buzz"; version := "1.3.2" |};
    {| directory := "/tmp/fixtures/flat/node_modules/@fu/fizz";
       main := Some "/tmp/fixtures/flat/node_modules/@fu/fizz/index.js";
       name := "@fu/fizz"; version := "1.3.1" |};
    {| directory := "/tmp/fixtures/flat/node_modules/bar";
       main := Some "/tmp/fixtures/flat/node_modules/bar/index";
       name := "bar"; version := "1.2.0" |};
    {| directory := "/tmp/fixtures/flat/node_modules/foo";
       main := Some "/tmp/fixtures/flat/node_modules/foo/index.js";
       name := "foo"; version := "1.1.0" |};
    {| directory := "/tmp/fixtures/flat";
       main := Some "/tmp/fixtures/flat/index.js";
       name := "flat"; version := "1.0.0" |} ].

(** The fixture [unpackaged]: a directory without [package.json] whose
    [node_modules] holds [foo], which has the dependency [bar] of its own. *)
Definition unpackaged_fs : FileSystem :=
  {| fs_manifests :=
       [ ("/tmp/fixtures/unpackaged/node_modules/foo/package.json",
           manifest (JString "index.js") "foo" "1.1.0");
         ("/tmp/fixtures/unpackaged/node_modules/foo/node_modules/bar/package.json",
           manifest (JString "index") "bar" "1.2.0") ];
     fs_directories :=
       [ "/"; "/tmp"; "/tmp/fixtures";
         "/tmp/fixtures/unpackaged"; "/tmp/fixtures/unpackaged/node_modules";
         "/tmp/fixtures/unpackaged/node_modules/foo";
         "/tmp/fixtures/unpackaged/node_modules/foo/node_modules";
         "/tmp/fixtures/unpackaged/node_modules/foo/node_modules/bar" ];
     fs_files :=
       [ "/tmp/fixtures/unpackaged/index.js";
         "/tmp/fixtures/unpackaged/node_modules/foo/index.js";
         "/tmp/fixtures/unpackaged/node_modules/foo/node_modules/bar/index.js" ] |}.

Definition unpackaged_world : World := world_of unpackaged_fs [].

(** A package whose [main] is the empty string. *)
Definition empty_main_fs : FileSystem :=
  {| fs_manifests := [ ("/srv/lib/package.json", manifest (JString "") "lib" "0.1.0") ];
     fs_directories := [ "/"; "/srv"; "/srv/lib" ];
     fs_files := [] |}.

Definition empty_main_world : World := world_of empty_main_fs [].

Definition with_path (p : string) (includeParents : bool) : Options :=
  {| includeParents := includeParents; knockknock := None; path := Some p |}.

Definition with_includeParents (b : bool) (o : Options) : Options :=
  {| includeParents := b; knockknock := knockknock o; path := path o |}.

(** ** What the callbacks receive

    The methods of [PacScan] hand their result to a callback, directly when
    synchronous and inside [then] when asynchronous.  [observe] looks at a
    run the way the caller of the entry points does: as it is when
    synchronous, through the promise when asynchronous. *)

Definition observe (sync : bool) (r : completion * State) : completion * State :=
  if sync then r else (settle (fst r), snd r).

(** The paths [_findAvailablePackagePaths] computes for a directory when
    its cache has no entry: the directory's own [package.json] if it is a
    package directory, then what the two patterns match, sorted and joined
    onto the directory. *)
Definition globOptions (dirPath : string) : GlobOptions :=
  {| cwd := dirPath; nodir := true; nosort := true |}.

Definition foundPaths (w : World) (dirPath : string) : list string :=
  concat (map (fun pattern => glob w pattern (globOptions dirPath)) PacScan.patterns).

Definition ownPaths (w : World) (dirPath : string) : list string :=
  if bool_decide (Some dirPath = pkgDir w dirPath) then ["package.json"] else [].

Definition availablePackagePaths (w : World) (dirPath : string) : list string :=
  map (fun filePath => path.join [dirPath; filePath])
    (sort (ownPaths w dirPath ++ foundPaths w dirPath)).

(** [_findAvailablePackagePaths] in direct style: the paths passed to the
    callback and the state in which it runs. *)
Definition enumerate (w : World) (dirPath : string) (st : State) : list string * State :=
  match availablePackagesCache st !! dirPath with
  | Some cached => (cached, st)
  | None =>
      let filePaths := availablePackagePaths w dirPath in
      (filePaths,
       availablePackagesCache_set dirPath filePaths
         (record_calls [CallPkgDir dirPath]
            (record_calls (map (fun pattern => CallGlob pattern (globOptions dirPath))
                             PacScan.patterns) st)))
  end.

(** [_findBaseDirectory] in direct style: [None] when the fuel runs out,
    otherwise the directory passed to the callback, with the state. *)
Fixpoint climb (w : World) (fuel : nat) (dirPath : string) (st : State)
    : option (option string) * State :=
  match fuel with
  | 0 => (None, st)
  | S fuel =>
      match parentPackageDirectoriesCache st !! dirPath with
      | Some cached => (Some (Some cached), st)
      | None =>
          let st := record_calls [CallPkgDir dirPath] st in
          match pkgDir w dirPath with
          | None => (Some None, st)
          | Some childDirPath =>
              let '(parentDirPath, parentDirName) := PacScan.parentDir childDirPath in
              if String.eqb parentDirName "node_modules" then
                match climb w fuel parentDirPath st with
                | (Some (Some p), st) => (Some (Some p), st)
                | (Some None, st) => (Some (Some childDirPath), st)
                | (None, st) => (None, st)
                end
              else
                (Some (Some childDirPath),
                 parentPackageDirectoriesCache_set dirPath childDirPath st)
          end
      end
  end.

(** The climb without the cache. *)
Fixpoint outermost (w : World) (fuel : nat) (dirPath : string) : option (option string) :=
  match fuel with
  | 0 => None
  | S fuel =>
      match pkgDir w dirPath with
      | None => Some None
      | Some childDirPath =>
          let '(parentDirPath, parentDirName) := PacScan.parentDir childDirPath in
          if String.eqb parentDirName "node_modules" then
            match outermost w fuel parentDirPath with
            | Some (Some p) => Some (Some p)
            | Some None => Some (Some childDirPath)
            | None => None
            end
          else Some (Some childDirPath)
      end
  end.

(** The file and package that [_resolveBaseDirectory] starts from. *)
Definition resolvePackage (w : World) (o : Options) : option string * option Package :=
  match path o with
  | Some filePath => (Some filePath, PacScan._getPackage w <$> pkgDir w filePath)
  | None =>
      match head (whoIsThere w (PacScan._findCaller_options o)) with
      | Some caller => (file caller, package caller)
      | None => (None, None)
      end
  end.

Definition resolvePackage_calls (o : Options) : list Call :=
  match path o with
  | Some filePath => [CallPkgDir filePath]
  | None => [CallWhoIsThere (PacScan._findCaller_options o)]
  end.

(** [_resolveBaseDirectory] in direct style: a completion when the scan
    ends there, otherwise the base directory passed to the callback. *)
Definition resolveBase (w : World) (o : Options) (st : State)
    : (completion + option string) * State :=
  let st := record_calls (resolvePackage_calls o) st in
  match resolvePackage w o with
  | (None, _) => (inl (Throw MissingSourceFile), st)
  | (Some filePath, None) =>
      (match stat w filePath with
       | inl code => inl (Throw (SystemError code "stat" filePath))
       | inr isDirectory =>
           inr (Some (if isDirectory then filePath else path.dirname filePath))
       end,
       record_calls [CallStat filePath] st)
  | (Some filePath, Some pkg) =>
      if negb (includeParents o) then (inr (Some (directory pkg)), st)
      else
        match climb w (S (String.length (directory pkg))) (directory pkg) st with
        | (Some d, st) => (inr d, st)
        | (None, st) => (inl (Outside OutOfFuel), st)
        end
  end.

(** The base directory of a scan, whatever the caches hold. *)
Definition baseDirectory (w : World) (o : Options) : completion + option string :=
  match resolvePackage w o with
  | (None, _) => inl (Throw MissingSourceFile)
  | (Some filePath, None) =>
      match stat w filePath with
      | inl code => inl (Throw (SystemError code "stat" filePath))
      | inr isDirectory =>
          inr (Some (if isDirectory then filePath else path.dirname filePath))
      end
  | (Some filePath, Some pkg) =>
      if negb (includeParents o) then inr (Some (directory pkg))
      else
        match outermost w (S (String.length (directory pkg))) (directory pkg) with
        | Some d => inr d
        | None => inl (Outside OutOfFuel)
        end
  end.

(** The records of the packages whose [package.json] paths are given. *)
Definition packagesAt (w : World) (filePaths : list string) : list Package :=
  map (fun filePath => PacScan._getPackage w (path.dirname filePath)) filePaths.

(** The record read for a [package.json] path relative to [dirPath]. *)
Definition recordAt (w : World) (dirPath p : string) : Package :=
  PacScan._getPackage w (path.dirname (path.join [dirPath; p])).

(** What a scan returns, whatever the caches hold. *)
Definition scanResult (w : World) (o : Options) : completion :=
  match baseDirectory w o with
  | inl c => c
  | inr None => Outside NullBaseDirectory
  | inr (Some dirPath) => Normal (Plain (packagesAt w (availablePackagePaths w dirPath)))
  end.

(** [scan] in direct style: its completion and the state it leaves. *)
Definition scanDirect (w : World) (o : Options) (st : State) : completion * State :=
  match resolveBase w o st with
  | (inl c, st) => (c, st)
  | (inr None, st) => (Outside NullBaseDirectory, st)
  | (inr (Some dirPath), st) =>
      (Normal (Plain (packagesAt w (enumerate w dirPath st).1)), (enumerate w dirPath st).2)
  end.

(** The file system searches among the calls made so far. *)
Definition is_search (c : Call) : bool :=
  match c with
  | CallGlob _ _ => true
  | _ => false
  end.

Definition searches (st : State) : list Call := List.filter is_search (calls st).

(** A world whose collaborators behave like [pkg-dir] and [knockknock]:
    the package directory found for a path is that path or a directory
    above it, so its name is no longer, and a path that is a package
    directory is found for itself; the package reported for a caller is
    installed in a package directory. *)
Definition well_formed (w : World) : Prop :=
  (forall d c, pkgDir w d = Some c ->
     String.length c <= String.length d /\ pkgDir w c = Some c)
  /\ (forall o caller pkg, caller ∈ whoIsThere w o -> package caller = Some pkg ->
        pkgDir w (directory pkg) = Some (directory pkg)).

(** ** States of the module *)

(** The caches hold what the code would compute afresh: the file paths of
    a directory, and for a directory the package directory found for it when
    the climb stopped there. *)
Definition coherent (w : World) (st : State) : Prop :=
  (forall d l, availablePackagesCache st !! d = Some l -> l = availablePackagePaths w d)
  /\ (forall d v, parentPackageDirectoriesCache st !! d = Some v ->
        pkgDir w d = Some v /\ snd (PacScan.parentDir v) <> "node_modules").

(** The states the module can be in: it starts with empty caches and is
    changed by scans, of either kind and with any options, and by
    [clearCache]. *)
Inductive reachable (w : World) : State -> Prop :=
  | reachable_initial : reachable w initial
  | reachable_scan o st : reachable w st -> reachable w (snd (scan w o st))
  | reachable_sync o st : reachable w st -> reachable w (snd (sync w o st))
  | reachable_clearCache st : reachable w st -> reachable w (clearCache st).

(** ** Further fixtures and notions *)

(** The fixture [single]: a package without dependencies. *)
Definition single_fs : FileSystem :=
  {| fs_manifests :=
       [ ("/tmp/fixtures/single/package.json", manifest (JString "index.js") "single" "1.0.0") ];
     fs_directories := [ "/"; "/tmp"; "/tmp/fixtures"; "/tmp/fixtures/single" ];
     fs_files := [ "/tmp/fixtures/single/index.js" ] |}.

Definition single_world : World :=
  world_of single_fs
    [ {| file := Some "/tmp/fixtures/single/index.js";
         package := Some {| directory := "/tmp/fixtures/single";
                            main := Some "/tmp/fixtures/single/index.js";
                            name := "single"; version := "1.0.0" |} |} ].

(** The fixture [unpackaged-single]: a directory with nothing installed,
    called from its file [index.js], which no package owns. *)
Definition unpackaged_single_fs : FileSystem :=
  {| fs_manifests := [];
     fs_directories :=
       [ "/"; "/tmp"; "/tmp/fixtures"; "/tmp/fixtures/unpackaged-single" ];
     fs_files := [ "/tmp/fixtures/unpackaged-single/index.js" ] |}.

Definition unpackaged_single_world : World :=
  world_of unpackaged_single_fs
    [ {| file := Some "/tmp/fixtures/unpackaged-single/index.js"; package := None |} ].

(** A caller whose file is not known. *)
Definition fileless_world : World :=
  world_of flat_fs [ {| file := None; package := None |} ].

(** Kinds of collaborator calls. *)
Definition is_caller_lookup (c : Call) : bool :=
  match c with
  | CallWhoIsThere _ => true
  | _ => false
  end.

Definition is_stat (c : Call) : bool :=
  match c with
  | CallStat _ => true
  | _ => false
  end.

(** The calls of one kind made so far. *)
Definition logged (f : Call -> bool) (st : State) : list Call := List.filter f (calls st).

(** Two states with the same caches. *)
Definition same_caches (st1 st2 : State) : Prop :=
  availablePackagesCache st1 = availablePackagesCache st2
  /\ parentPackageDirectoriesCache st1 = parentPackageDirectoriesCache st2.

(** The file path of the first caller, if there is one and it has a file. *)
Definition callerFile (w : World) (o : Options) : option string :=
  head (whoIsThere w (PacScan._findCaller_options o)) ≫= file.

(** The two searches of an enumeration, the later one first. *)
Definition enumeration_searches (dirPath : string) : list Call :=
  [ CallGlob "**/node_modules/@*/*/package.json"
      {| cwd := dirPath; nodir := true; nosort := true |};
    CallGlob "**/node_modules/*/package.json"
      {| cwd := dirPath; nodir := true; nosort := true |} ].

(** The [fs.stat] call of a scan: for the file path that no package
    owns. *)
Definition fallback_stats (w : World) (o : Options) : list Call :=
  match resolvePackage w o with
  | (Some filePath, None) => [CallStat filePath]
  | _ => []
  end.

(** The searches of an enumeration of [dirPath] from given caches. *)
Definition new_searches (st : State) (dirPath : string) : list Call :=
  match availablePackagesCache st !! dirPath with
  | Some _ => []
  | None => enumeration_searches dirPath
  end.

(** A directory at which the climb stops: a package directory that is not
    installed in the [node_modules] of a package further up. *)
Definition climb_top (w : World) (d : string) : Prop :=
  pkgDir w d = Some d
  /\ ((PacScan.parentDir d).2 <> "node_modules"
      \/ pkgDir w (PacScan.parentDir d).1 = None).

(** A callback that shows the directory it receives. *)
Definition show_directory (d : option string) : M :=
  fun st =>
    (Normal (Plain (match d with
                    | Some d => [ {| directory := d; main := None; name := ""; version := "" |} ]
                    | None => []
                    end)), st).

(** A state whose cache of file paths holds an outdated entry for [flat]:
    only the [package.json] of [foo]. *)
Definition stale : State :=
  availablePackagesCache_set "/tmp/fixtures/flat"
    [ "/tmp/fixtures/flat/node_modules/foo/package.json" ] initial.

(** ** The test helper [createOptions]

    [createOptions] of [test/helpers.js] puts [chai] and [mocha] in front of
    the packages that [knockknock] is told to leave out.  The source changes
    the object it is given and returns it; the value returned is what is
    modelled. *)
Definition createOptions (options : option Options) : Options :=
  let options :=
    match options with
    | Some o => o
    | None => {| includeParents := false; knockknock := None; path := None |}
    end in
  let knockknock0 :=
    match knockknock options with
    | Some k => k
    | None => {| excludes := None; limit := None; offset := None |}
    end in
  let knockknock0 :=
    {| excludes := Some (["chai"; "mocha"] ++ default [] (excludes knockknock0))%list;
       limit := limit knockknock0;
       offset := offset knockknock0 |} in
  {| includeParents := includeParents options;
     knockknock := Some knockknock0;
     path := path options |}.

(** ** The earlier revision of the module

    [unnamed/part_000] is the module before it had a cache of parent
    directories and before it asked whether a path outside every package is
    a directory.  [_findPackagePaths], [_findPackagePathsSync],
    [_getPackage], [_parseOptions], [_findPackageDirectory],
    [_isPackageDirectory] and [_findAvailablePackagePaths] have the text of
    the current revision and are those of [PacScan]; the options computed
    by [_getCallers] are those of [_findCaller].  The state is the current
    one; this revision never touches its cache of parent directories. *)

Module LegacyPacScan.

(** A JavaScript object: its address and its fields. *)
Definition object : Type := nat * Package.

(** [Object.assign({}, pkg)]: a new object, at the next free address. *)
Definition Object_assign (next : nat) (pkg : Package) : object := (next, pkg).

(** [Set.prototype.add]: an object is in the set when it is that very
    object; a new one is put last. *)
Definition Set_add (packages : list object) (x : object) : list object :=
  if bool_decide (x.1 ∈ packages.*1) then packages else (packages ++ [x])%list.

(** [Array.from(packages)]: the objects in the order they were added. *)
Definition Array_from (packages : list object) : list Package := packages.*2.

Section LegacyPacScan.

Variable w : World.
Variable _sync : bool.
Variable _options : Options.

(** [_findBaseDirectory], with fuel as in the current revision. *)
Fixpoint _findBaseDirectory (fuel : nat) (filePath : string)
    (callback : option string -> M) : M :=
  fun st =>
    match fuel with
    | 0 => (Outside OutOfFuel, st)
    | S fuel =>
        PacScan._findPackageDirectory w _sync filePath (fun dirPath =>
          match dirPath with
          | None => callback None
          | Some dirPath =>
              let '(parentDirPath, parentDirName) := PacScan.parentDir dirPath in
              if String.eqb parentDirName "node_modules" then
                _findBaseDirectory fuel parentDirPath (fun parentPkgDirPath =>
                  let dirPath :=
                    match parentPkgDirPath with
                    | Some p => p
                    | None => dirPath
                    end in
                  callback (Some dirPath))
              else callback (Some dirPath)
          end) st
    end.

(** [_getCallers]. *)
Definition _getCallers (callback : list Caller -> M) : M :=
  fun st =>
    let options := PacScan._findCaller_options _options in
    let st := record_calls [CallWhoIsThere options] st in
    if _sync then callback (whoIsThere w options) st
    else Promise_then (whoIsThere w options) callback st.

(** [_resolveBaseDirectoryFromCaller]. *)
Definition _resolveBaseDirectoryFromCaller
    (callback : option string -> option Package -> M) : M :=
  _getCallers (fun callers =>
    match head callers with
    | Some caller => callback (file caller) (package caller)
    | None => callback None None
    end).

(** [_resolveBaseDirectoryFromPath]. *)
Definition _resolveBaseDirectoryFromPath (filePath : string)
    (callback : option string -> option Package -> M) : M :=
  PacScan._findPackageDirectory w _sync filePath (fun dirPath =>
    let pkg :=
      match dirPath with
      | Some dirPath => Some (PacScan._getPackage w dirPath)
      | None => None
      end in
    callback (Some filePath) pkg).

(** [_resolveBaseDirectory]: outside every package the base is the
    directory above the path, whatever the path is. *)
Definition _resolveBaseDirectory (callback : option string -> M) : M :=
  let baseDirectoryResolver :=
    match path _options with
    | Some filePath => _resolveBaseDirectoryFromPath filePath
    | None => _resolveBaseDirectoryFromCaller
    end in
  baseDirectoryResolver (fun filePath pkg =>
    match filePath with
    | None => fun st => (Throw MissingSourceFile, st)
    | Some filePath =>
        match pkg with
        | None => callback (Some (path.dirname filePath))
        | Some pkg =>
            let dirPath := directory pkg in
            if negb (includeParents _options) then callback (Some dirPath)
            else _findBaseDirectory (S (String.length dirPath)) dirPath callback
        end
    end).

(** The loop of [scan]: a copy of each record is added to the set
    [packages]; the pair carries the next free address. *)
Definition collect (filePaths : list string) : nat * list object :=
  fold_left (fun '(next, packages) filePath =>
               let pkg := PacScan._getPackage w (path.dirname filePath) in
               (S next, Set_add packages (Object_assign next pkg)))
            filePaths (0, []).

(** The callback that [scan] hands to [_resolveBaseDirectory]. *)
Definition scanDirectory (dirPath : option string) : M :=
  match dirPath with
  | None => fun st => (Outside NullBaseDirectory, st)
  | Some dirPath =>
      PacScan._findAvailablePackagePaths w _sync dirPath (fun filePaths =>
        fun st => (Normal (Plain (Array_from (collect filePaths).2)), st))
  end.

(** [scan]. *)
Definition scan : M := _resolveBaseDirectory scanDirectory.

End LegacyPacScan.
End LegacyPacScan.

Module Legacy.

(** [module.exports = function scan(options)]. *)
Definition scan (w : World) (options : option Options) : M :=
  fun st =>
    let '(c, st') := LegacyPacScan.scan w false (PacScan._parseOptions options) st in
    (Promise_resolve c, st').

(** [module.exports.sync = function scanSync(options)]. *)
Definition scanSync (w : World) (options : option Options) : M :=
  LegacyPacScan.scan w true (PacScan._parseOptions options).

(** [module.exports.clearCache]: the one cache of this revision. *)
Definition clearCache (st : State) : State :=
  {| availablePackagesCache := ∅;
     parentPackageDirectoriesCache := parentPackageDirectoriesCache st;
     calls := calls st |}.

End Legacy.

(** The base directory of a scan of the earlier revision. *)
Definition legacyBaseDirectory (w : World) (o : Options) : completion + option string :=
  match resolvePackage w o with
  | (None, _) => inl (Throw MissingSourceFile)
  | (Some filePath, None) => inr (Some (path.dirname filePath))
  | (Some filePath, Some pkg) =>
      if negb (includeParents o) then inr (Some (directory pkg))
      else
        match outermost w (S (String.length (directory pkg))) (directory pkg) with
        | Some d => inr d
        | None => inl (Outside OutOfFuel)
        end
  end.

(** What a scan of the earlier revision returns, whatever its cache holds. *)
Definition legacyScanResult (w : World) (o : Options) : completion :=
  match legacyBaseDirectory w o with
  | inl c => c
  | inr None => Outside NullBaseDirectory
  | inr (Some dirPath) => Normal (Plain (packagesAt w (availablePackagePaths w dirPath)))
  end.

(** A scan that starts from a path which no package owns and which
    [fs.stat] does not report as a plain file: there the two revisions go
    different ways. *)
Definition unowned_start (w : World) (o : Options) : bool :=
  match resolvePackage w o with
  | (Some filePath, None) => negb (bool_decide (stat w filePath = inr false))
  | _ => false
  end.

(** The options with other options for [knockknock]. *)
Definition with_knockknock (k : option KnockknockOptions) (o : Options) : Options :=
  {| includeParents := includeParents o; knockknock := k; path := path o |}.

(** ** Node's [path] functions on some paths *)

Example dirname_ex1 : path.dirname "/a/node_modules/@s/pkg" = "/a/node_modules/@s".
Proof. reflexivity. Qed.
Example dirname_ex2 : path.dirname "/a" = "/" /\ path.dirname "a" = "." /\ path.dirname "" = "."
  /\ path.dirname "/a//b/" = "/a/" /\ path.dirname "//a" = "//" /\ path.dirname "/" = "/".
Proof. repeat split; reflexivity. Qed.
Example basename_ex1 : path.basename "/a/node_modules/@s" = "@s" /\ path.basename "/" = ""
  /\ path.basename "a/b//" = "b" /\ path.basename "." = "." /\ path.basename "" = "".
Proof. repeat split; reflexivity. Qed.
Example join_ex1 : path.join ["/tmp/flat"; "node_modules/@baz/buzz/package.json"]
  = "/tmp/flat/node_modules/@baz/buzz/package.json"
  /\ path.join ["/tmp/flat/"; "./a/../b//c/"] = "/tmp/flat/b/c/"
  /\ path.join ["a"; "../../b"] = "../b" /\ path.join [""; ""] = "."
  /\ path.join ["/"; ".."] = "/".
Proof. repeat split; reflexivity. Qed.

(** ** Promises *)

Lemma settle_idempotent c : settle (settle c) = settle c.
Proof. destruct c as [[pkgs|s]|e|b]; reflexivity. Qed.

Lemma observe_idempotent sync r : observe sync (observe sync r) = observe sync r.
Proof. destruct sync; simpl; [reflexivity|]. by rewrite settle_idempotent. Qed.

Lemma Promise_then_observe {A} (v : A) callback st :
  Promise_then v callback st = observe false (callback v st).
Proof. unfold Promise_then, observe. by destruct (callback v st). Qed.

Lemma observe_fst_snd sync r :
  snd (observe sync r) = snd r
  /\ fst (observe sync r) = if sync then fst r else settle (fst r).
Proof. by destruct sync. Qed.

(** ** The collaborators' wrappers *)

Section Wrappers.

Variables (w : World) (sync : bool) (o : Options).

Lemma findPackageDirectory_observe filePath callback st :
  PacScan._findPackageDirectory w sync filePath callback st
  = observe sync (callback (pkgDir w filePath) (record_calls [CallPkgDir filePath] st)).
Proof.
  unfold PacScan._findPackageDirectory. destruct sync; [reflexivity|].
  apply Promise_then_observe.
Qed.

Lemma isDirectory_observe filePath callback st :
  PacScan._isDirectory w sync filePath callback st
  = observe sync (match stat w filePath with
                  | inl code =>
                      (Throw (SystemError code "stat" filePath),
                       record_calls [CallStat filePath] st)
                  | inr isDirectory =>
                      callback isDirectory (record_calls [CallStat filePath] st)
                  end).
Proof.
  unfold PacScan._isDirectory.
  destruct (stat w filePath) as [code|isDirectory]; destruct sync; try reflexivity.
  apply Promise_then_observe.
Qed.

Lemma findCaller_observe callback st :
  PacScan._findCaller w sync o callback st
  = observe sync (callback (head (whoIsThere w (PacScan._findCaller_options o)))
                    (record_calls [CallWhoIsThere (PacScan._findCaller_options o)] st)).
Proof.
  unfold PacScan._findCaller. destruct sync; [reflexivity|].
  apply Promise_then_observe.
Qed.

(** [_findAvailablePackagePaths] passes [enumerate] to its callback. *)
Lemma findAvailablePackagePaths_observe dirPath callback st :
  observe sync (PacScan._findAvailablePackagePaths w sync dirPath callback st)
  = observe sync (callback (enumerate w dirPath st).1 (enumerate w dirPath st).2).
Proof.
  unfold PacScan._findAvailablePackagePaths, enumerate.
  destruct (availablePackagesCache st !! dirPath) as [cached|]; [reflexivity|].
  assert (Hfinder : forall cb st0,
    (if sync then PacScan._findPackagePathsSync w else PacScan._findPackagePaths w)
      PacScan.patterns (globOptions dirPath) cb st0
    = observe sync (cb (foundPaths w dirPath)
        (record_calls (map (fun pattern => CallGlob pattern (globOptions dirPath))
                         PacScan.patterns) st0))).
  { intros cb st0. destruct sync; [reflexivity|].
    unfold PacScan._findPackagePaths. apply Promise_then_observe. }
  change {| cwd := dirPath; nodir := true; nosort := true |} with (globOptions dirPath).
  rewrite Hfinder. unfold PacScan._isPackageDirectory.
  rewrite findPackageDirectory_observe. rewrite !observe_idempotent.
  unfold availablePackagePaths, ownPaths. simpl.
  by destruct (bool_decide (Some dirPath = pkgDir w dirPath)).
Qed.

(** [_findBaseDirectory] passes [climb] to its callback. *)
Lemma findBaseDirectory_observe fuel : forall dirPath callback st,
  observe sync (PacScan._findBaseDirectory w sync fuel dirPath callback st)
  = observe sync (match climb w fuel dirPath st with
                  | (Some d, st') => callback d st'
                  | (None, st') => (Outside OutOfFuel, st')
                  end).
Proof.
  induction fuel as [|fuel IH]; intros dirPath callback st; [reflexivity|].
  simpl. destruct (parentPackageDirectoriesCache st !! dirPath) as [cached|];
    [reflexivity|].
  rewrite findPackageDirectory_observe, observe_idempotent.
  destruct (pkgDir w dirPath) as [childDirPath|]; [|reflexivity].
  destruct (PacScan.parentDir childDirPath) as [parentDirPath parentDirName].
  destruct (String.eqb parentDirName "node_modules"); [|reflexivity].
  rewrite IH.
  by destruct (climb w fuel parentDirPath _) as [[[p|]|] st'].
Qed.

(** [_resolveBaseDirectory] passes [resolveBase] to its callback. *)
Lemma resolveBaseDirectory_observe callback st :
  observe sync (PacScan._resolveBaseDirectory w sync o callback st)
  = observe sync (match resolveBase w o st with
                  | (inr d, st') => callback d st'
                  | (inl c, st') => (c, st')
                  end).
Proof.
  unfold PacScan._resolveBaseDirectory, resolveBase, resolvePackage,
    resolvePackage_calls.
  destruct (path o) as [filePath|].
  - unfold PacScan._resolvePackageFromPath.
    rewrite findPackageDirectory_observe, observe_idempotent.
    destruct (pkgDir w filePath) as [dirPath|]; cbn [fmap option_fmap option_map].
    + cbn [PacScan._getPackage directory].
      destruct (includeParents o); cbn [negb]; [|reflexivity].
      rewrite findBaseDirectory_observe.
      by destruct (climb w _ dirPath _) as [[d|] st'].
    + rewrite isDirectory_observe, observe_idempotent.
      by destruct (stat w filePath).
  - unfold PacScan._resolvePackageFromCaller.
    rewrite findCaller_observe, observe_idempotent.
    destruct (head _) as [[[filePath|] [pkg|]]|]; cbn [file package];
      try reflexivity.
    + destruct (includeParents o); cbn [negb]; [|reflexivity].
      rewrite findBaseDirectory_observe.
      by destruct (climb w _ (directory pkg) _) as [[d|] st'].
    + rewrite isDirectory_observe, observe_idempotent.
      by destruct (stat w filePath).
Qed.

End Wrappers.

(** ** The caches stay coherent, and do not change what is computed *)

Section Coherence.

Variable w : World.

Lemma coherent_initial : coherent w initial.
Proof. split; intros d v; simpl; by rewrite lookup_empty. Qed.

Lemma coherent_clearCache st : coherent w (clearCache st).
Proof. split; intros d v; simpl; by rewrite lookup_empty. Qed.

Lemma coherent_record_calls cs st : coherent w st -> coherent w (record_calls cs st).
Proof. intros H. exact H. Qed.

Lemma enumerate_coherent dirPath st :
  coherent w st ->
  (enumerate w dirPath st).1 = availablePackagePaths w dirPath
  /\ coherent w (enumerate w dirPath st).2.
Proof.
  intros [Ha Hp]. unfold enumerate.
  destruct (availablePackagesCache st !! dirPath) as [cached|] eqn:Hc; simpl.
  - split; [by apply Ha | by split].
  - split; [reflexivity|]. split; simpl; [|exact Hp].
    intros d l. rewrite lookup_insert. case_decide; [|by apply Ha].
    intros [= <-]. by subst.
Qed.

Lemma climb_coherent fuel : forall dirPath st,
  coherent w st ->
  (climb w fuel dirPath st).1 = outermost w fuel dirPath
  /\ coherent w (climb w fuel dirPath st).2.
Proof.
  induction fuel as [|fuel IH]; intros dirPath st Hst; [by split|].
  simpl. destruct (parentPackageDirectoriesCache st !! dirPath) as [cached|] eqn:Hc.
  - destruct Hst as [Ha Hp]. destruct (Hp _ _ Hc) as [-> Hstop]. simpl.
    destruct (PacScan.parentDir cached) as [parentDirPath parentDirName].
    simpl in Hstop. apply String.eqb_neq in Hstop. rewrite Hstop.
    split; [reflexivity | by split].
  - destruct (pkgDir w dirPath) as [childDirPath|] eqn:Hdir; [|by split].
    destruct (PacScan.parentDir childDirPath) as [parentDirPath parentDirName] eqn:Hparent.
    destruct (String.eqb parentDirName "node_modules") eqn:Hname.
    + destruct (IH parentDirPath (record_calls [CallPkgDir dirPath] st)) as [Hv Hst'];
        [by apply coherent_record_calls|].
      destruct (climb w fuel parentDirPath _) as [[[p|]|] st']; simpl in *;
        by rewrite <- Hv.
    + simpl. split; [reflexivity|]. destruct Hst as [Ha Hp]. split; simpl; [exact Ha|].
      intros d v. rewrite lookup_insert. case_decide; [|by apply Hp].
      intros [= <-]. subst d. split; [exact Hdir|].
      rewrite Hparent. simpl. by apply String.eqb_neq.
Qed.

Lemma resolveBase_coherent o st :
  coherent w st ->
  (resolveBase w o st).1 = baseDirectory w o
  /\ coherent w (resolveBase w o st).2.
Proof.
  intros Hst. unfold resolveBase, baseDirectory.
  destruct (resolvePackage w o) as [[filePath|] [pkg|]]; try by split.
  destruct (negb (includeParents o)); [by split|].
  destruct (climb_coherent (S (String.length (directory pkg))) (directory pkg)
              (record_calls (resolvePackage_calls o) st)) as [Hv Hst'];
    [by apply coherent_record_calls|].
  destruct (climb w _ (directory pkg) _) as [[d|] st']; cbn [fst snd] in Hv, Hst';
    rewrite <- Hv; by split.
Qed.

(** A scan from coherent caches returns [scanResult] and leaves the
    caches coherent. *)
Lemma PacScan_scan_coherent sync o st :
  coherent w st ->
  exists st', coherent w st'
    /\ observe sync (PacScan.scan w sync o st) = observe sync (scanResult w o, st').
Proof.
  intros Hst.
  pose proof (resolveBaseDirectory_observe w sync o (PacScan.scanDirectory w sync) st) as Hr.
  fold (PacScan.scan w sync o) in Hr.
  destruct (resolveBase_coherent o st Hst) as [Hv Hst'].
  unfold scanResult. rewrite <- Hv.
  destruct (resolveBase w o st) as [[c|[dirPath|]] st'] eqn:Hbase;
    cbn [fst snd] in *; try by exists st'.
  pose proof (findAvailablePackagePaths_observe w sync dirPath
    (fun filePaths st0 => (Normal (Plain (packagesAt w filePaths)), st0)) st') as He.
  destruct (enumerate_coherent dirPath st' Hst') as [Hl Hst''].
  rewrite Hl in He. unfold PacScan.scanDirectory in Hr. unfold packagesAt in He at 1.
  rewrite He in Hr. by eexists.
Qed.

(** An asynchronous scan always goes through a promise. *)
Lemma PacScan_scan_settled o st :
  PacScan.scan w false o st = observe false (PacScan.scan w false o st).
Proof.
  unfold PacScan.scan, PacScan._resolveBaseDirectory.
  destruct (path o) as [filePath|].
  - unfold PacScan._resolvePackageFromPath.
    by rewrite findPackageDirectory_observe, observe_idempotent.
  - unfold PacScan._resolvePackageFromCaller.
    by rewrite findCaller_observe, observe_idempotent.
Qed.

Lemma sync_coherent o st :
  coherent w st ->
  (sync w o st).1 = scanResult w (PacScan._parseOptions o)
  /\ coherent w (sync w o st).2.
Proof.
  intros Hst. unfold sync.
  destruct (PacScan_scan_coherent true (PacScan._parseOptions o) st Hst)
    as (st' & Hc & Hr).
  simpl in Hr. by rewrite Hr.
Qed.

Lemma scan_coherent o st :
  coherent w st ->
  (scan w o st).1 = settle (scanResult w (PacScan._parseOptions o))
  /\ coherent w (scan w o st).2.
Proof.
  intros Hst. unfold scan.
  destruct (PacScan_scan_coherent false (PacScan._parseOptions o) st Hst)
    as (st' & Hc & Hr).
  rewrite <- PacScan_scan_settled in Hr. rewrite Hr. simpl. split; [|exact Hc].
  by destruct (scanResult w (PacScan._parseOptions o)) as [[pkgs|s]|e|b].
Qed.

Lemma reachable_coherent st : reachable w st -> coherent w st.
Proof.
  induction 1 as [|o st _ IH|o st _ IH|st _ IH].
  - apply coherent_initial.
  - by apply scan_coherent.
  - by apply sync_coherent.
  - apply coherent_clearCache.
Qed.

End Coherence.

(** ** The searches a scan makes *)

Section Searches.

Variable w : World.

(** [scan] completes as [scanDirect] tells. *)
Lemma scan_direct sync o st :
  observe sync (PacScan.scan w sync o st) = observe sync (scanDirect w o st).
Proof.
  unfold PacScan.scan, scanDirect. rewrite resolveBaseDirectory_observe.
  destruct (resolveBase w o st) as [[c|[dirPath|]] st1]; try reflexivity.
  unfold PacScan.scanDirectory. by rewrite findAvailablePackagePaths_observe.
Qed.

Lemma sync_state o st : (sync w o st).2 = (scanDirect w (PacScan._parseOptions o) st).2.
Proof. exact (f_equal snd (scan_direct true (PacScan._parseOptions o) st)). Qed.

Lemma scan_state o st : (scan w o st).2 = (scanDirect w (PacScan._parseOptions o) st).2.
Proof.
  unfold scan.
  pose proof (scan_direct false (PacScan._parseOptions o) st) as H.
  rewrite <- PacScan_scan_settled in H. rewrite H. unfold observe.
  by destruct (scanDirect w (PacScan._parseOptions o) st).
Qed.

Lemma climb_keeps fuel : forall dirPath st,
  availablePackagesCache (climb w fuel dirPath st).2 = availablePackagesCache st
  /\ searches (climb w fuel dirPath st).2 = searches st.
Proof.
  induction fuel as [|fuel IH]; intros dirPath st; [by split|].
  cbn [climb]. destruct (parentPackageDirectoriesCache st !! dirPath); [by split|].
  destruct (pkgDir w dirPath) as [childDirPath|]; [|by split].
  destruct (PacScan.parentDir childDirPath) as [parentDirPath parentDirName].
  destruct (String.eqb parentDirName "node_modules"); [|by split].
  destruct (IH parentDirPath (record_calls [CallPkgDir dirPath] st)) as [Hc Hs].
  by destruct (climb w fuel parentDirPath _) as [[[p|]|] st'].
Qed.

Lemma resolveBase_keeps o st :
  availablePackagesCache (resolveBase w o st).2 = availablePackagesCache st
  /\ searches (resolveBase w o st).2 = searches st.
Proof.
  unfold resolveBase.
  assert (Hcalls : searches (record_calls (resolvePackage_calls o) st) = searches st).
  { unfold resolvePackage_calls. by destruct (path o). }
  destruct (resolvePackage w o) as [[filePath|] [pkg|]]; try by split.
  destruct (negb (includeParents o)); [by split|].
  destruct (climb_keeps (S (String.length (directory pkg))) (directory pkg)
              (record_calls (resolvePackage_calls o) st)) as [Hc Hs].
  destruct (climb w _ (directory pkg) _) as [[d|] st']; cbn [fst snd] in *;
    by rewrite Hc, Hs.
Qed.

Lemma enumerate_cached dirPath st :
  availablePackagesCache (enumerate w dirPath st).2 !! dirPath
  = Some (enumerate w dirPath st).1.
Proof.
  unfold enumerate. destruct (availablePackagesCache st !! dirPath) eqn:Hc; [exact Hc|].
  cbn. apply lookup_insert_eq.
Qed.

(** A scan that follows a scan with the same options searches nothing. *)
Lemma second_scan_searches o st :
  coherent w st ->
  let st1 := (scanDirect w o st).2 in
  searches (scanDirect w o st1).2 = searches st1.
Proof.
  intros Hst st1.
  assert (Hst1 : coherent w st1).
  { subst st1. unfold scanDirect.
    destruct (resolveBase_coherent w o st Hst) as [_ Hc].
    destruct (resolveBase w o st) as [[c|[dirPath|]] s1]; cbn [snd] in *; try done.
    by apply enumerate_coherent. }
  destruct (resolveBase_coherent w o st Hst) as [Hv _].
  destruct (resolveBase_coherent w o st1 Hst1) as [Hv1 _].
  destruct (resolveBase_keeps o st1) as [Hc1 Hs1].
  assert (Hhit : forall dirPath, (resolveBase w o st).1 = inr (Some dirPath) ->
    is_Some (availablePackagesCache st1 !! dirPath)).
  { intros dirPath Hd. subst st1. unfold scanDirect.
    destruct (resolveBase w o st) as [r s1]. cbn [fst] in Hd. subst r.
    cbn [snd]. rewrite enumerate_cached. by eexists. }
  rewrite Hv in Hhit. rewrite <- Hv1 in Hhit.
  unfold scanDirect at 1.
  destruct (resolveBase w o st1) as [[c|[dirPath|]] s2]; cbn [fst snd] in *; try done.
  destruct (Hhit dirPath eq_refl) as [cached Hcached].
  unfold enumerate. by rewrite Hc1, Hcached.
Qed.

End Searches.

(** ** The order of [sort] *)

Lemma sort_sorted l : StronglySorted String.le (sort l).
Proof. apply StronglySorted_merge_sort; apply _. Qed.

Lemma sort_permutation l : sort l ≡ₚ l.
Proof. apply merge_sort_Permutation. Qed.

(** [sort] is the only way to put the paths in order. *)
Lemma sort_unique l l' : StronglySorted String.le l' -> l' ≡ₚ l -> l' = sort l.
Proof.
  intros Hs Hp. apply (StronglySorted_unique String.le); [exact Hs|apply sort_sorted|].
  by rewrite Hp, sort_permutation.
Qed.

(** Where an element stands in a sorted list. *)
Lemma sorted_split (x : string) (l : list string) :
  x ∈ l -> StronglySorted String.le l ->
  exists before after, l = (before ++ x :: after)%list
    /\ Forall (fun p => String.le p x) before /\ Forall (String.le x) after.
Proof.
  intros Hin Hs. apply list_elem_of_split in Hin as (before & after & ->).
  exists before, after. split; [reflexivity|].
  apply StronglySorted_app in Hs as (Hcross & _ & Hafter).
  apply StronglySorted_cons in Hafter as [Hafter _].
  split; [|exact Hafter].
  apply Forall_forall. intros p Hp. apply Hcross; [exact Hp | by left].
Qed.

(** Every path below [node_modules/] sorts before [package.json]. *)
Lemma node_modules_before_package_json (rest : string) :
  String.le "package.json" ("node_modules/" ++ rest) -> False.
Proof. unfold String.le. vm_compute. by intros []. Qed.

(** ** Paths made of segments *)

Lemma string_app_cons c s t : String c s ++ t = String c (s ++ t).
Proof. reflexivity. Qed.


Lemma string_app_length s t :
  String.length (s ++ t) = String.length s + String.length t.
Proof.
  induction s as [|c s IH]; [reflexivity|]. rewrite string_app_cons. simpl. by f_equal.
Qed.

Lemma entry_length p seg :
  String.length (entry p seg) = S (String.length p + String.length seg).
Proof. unfold entry. rewrite string_app_length. simpl. lia. Qed.

Lemma substring_all s : String.substring 0 (String.length s) s = s.
Proof. induction s as [|c s IH]; [reflexivity|]. simpl. by f_equal. Qed.

Lemma substring_entry_l p seg : String.substring 0 (String.length p) (entry p seg) = p.
Proof.
  unfold entry. induction p as [|c p IH]; [reflexivity|].
  rewrite string_app_cons. simpl. by f_equal.
Qed.

Lemma substring_entry_r p seg :
  String.substring (S (String.length p)) (String.length seg) (entry p seg) = seg.
Proof.
  unfold entry. induction p as [|c p IH].
  - change ("" ++ String "/" seg) with (String "/" seg). simpl. apply substring_all.
  - rewrite string_app_cons. simpl. exact IH.
Qed.

Lemma get_entry_slash p seg : String.get (String.length p) (entry p seg) = Some "/"%char.
Proof.
  exact (eq_sym (String.append_correct2 p (String "/" seg) 0)).
Qed.

Lemma get_entry_segment p seg j :
  String.get (S (String.length p + j)) (entry p seg) = String.get j seg.
Proof.
  replace (S (String.length p + j)) with (S j + String.length p) by lia.
  exact (eq_sym (String.append_correct2 p (String "/" seg) (S j))).
Qed.

Lemma get_entry_l p seg i :
  i < String.length p -> String.get i (entry p seg) = String.get i p.
Proof. intros Hi. unfold entry. by rewrite <- String.append_correct1. Qed.

Lemma slash_free_get s : slash_free s = true ->
  forall i, path.is_slash (String.get i s) = false.
Proof.
  induction s as [|c s IH]; intros Hs i; [by destruct i|].
  simpl in Hs. apply andb_true_iff in Hs as [Hc Hs].
  destruct i as [|i]; simpl; [by apply negb_true_iff in Hc | by apply IH].
Qed.

Lemma is_segment_spec s :
  is_segment s = true -> slash_free s = true /\ exists k, String.length s = S k.
Proof.
  unfold is_segment. intros [Hne Hs]%andb_true_iff. split; [exact Hs|].
  destruct s as [|c s]; [done|]. by exists (String.length s).
Qed.

(** A path that ends in a segment does not end in a slash. *)
Lemma entry_last p seg :
  is_segment seg = true ->
  path.is_slash (String.get (String.length (entry p seg) - 1) (entry p seg)) = false.
Proof.
  intros [Hs [k Hk]]%is_segment_spec. rewrite entry_length, Hk.
  replace (S (String.length p + S k) - 1) with (S (String.length p + k)) by lia.
  rewrite get_entry_segment. by apply slash_free_get.
Qed.

Section Entry.

Variables (p seg : string).
Hypothesis Hseg : is_segment seg = true.

Lemma dirname_end_entry : forall k matchedSlash,
  1 <= String.length p ->
  (k = 0 -> matchedSlash = false) ->
  path.dirname_end (entry p seg) (String.length p + k) matchedSlash
  = Some (String.length p).
Proof.
  destruct (is_segment_spec seg Hseg) as [Hs _].
  induction k as [|k IH]; intros matchedSlash Hp Hm.
  - rewrite Nat.add_0_r. rewrite (Hm eq_refl).
    pose proof (get_entry_slash p seg) as Hslash.
    destruct (String.length p) as [|n]; [lia|].
    cbn [path.dirname_end]. by rewrite Hslash.
  - rewrite Nat.add_succ_r. cbn [path.dirname_end].
    rewrite get_entry_segment, (slash_free_get seg Hs). by apply IH.
Qed.

(** [dirname] of an entry of a directory that is not the root. *)
Lemma dirname_entry :
  p <> "" ->
  path.is_slash (String.get (String.length p - 1) p) = false ->
  path.dirname (entry p seg) = p.
Proof.
  intros Hp Hlast. destruct (is_segment_spec seg Hseg) as [Hs [k Hk]].
  assert (Hlen : 1 <= String.length p) by (destruct p; [done|simpl; lia]).
  unfold path.dirname. rewrite entry_length. cbn [Nat.eqb].
  replace (S (String.length p + String.length seg) - 1)
    with (String.length p + String.length seg) by lia.
  rewrite dirname_end_entry; [|exact Hlen|lia].
  destruct (Nat.eqb_spec (String.length p) 1) as [H1|H1].
  - rewrite get_entry_l by lia. rewrite H1 in Hlast. cbn [Nat.sub] in Hlast.
    rewrite Hlast. cbn [andb]. apply substring_entry_l.
  - rewrite andb_false_r. apply substring_entry_l.
Qed.

Lemma basename_scan_S n matchedSlash end_ :
  path.basename_scan (entry p seg) (S n) matchedSlash end_
  = if path.is_slash (String.get n (entry p seg)) then
      if matchedSlash then path.basename_scan (entry p seg) n true end_ else (S n, end_)
    else
      match end_ with
      | None => path.basename_scan (entry p seg) n false (Some (S n))
      | Some _ => path.basename_scan (entry p seg) n matchedSlash end_
      end.
Proof. reflexivity. Qed.

Lemma basename_scan_entry : forall k e,
  path.basename_scan (entry p seg) (S (String.length p + k)) false (Some e)
  = (S (String.length p), Some e).
Proof.
  destruct (is_segment_spec seg Hseg) as [Hs _].
  induction k as [|k IH]; intros e.
  - rewrite Nat.add_0_r. cbn [path.basename_scan]. by rewrite get_entry_slash.
  - rewrite Nat.add_succ_r. cbn [path.basename_scan].
    rewrite get_entry_segment, (slash_free_get seg Hs). apply IH.
Qed.

(** [basename] of an entry is its last segment. *)
Lemma basename_entry : path.basename (entry p seg) = seg.
Proof.
  destruct (is_segment_spec seg Hseg) as [Hs [k Hk]].
  unfold path.basename. rewrite entry_length, Hk.
  rewrite Nat.add_succ_r, basename_scan_S.
  rewrite get_entry_segment, (slash_free_get seg Hs), basename_scan_entry.
  replace (S (S (String.length p + k)) - S (String.length p)) with (String.length seg)
    by lia.
  apply substring_entry_r.
Qed.

End Entry.

Lemma entry_nonempty p seg : entry p seg <> "".
Proof. unfold entry. by destruct p. Qed.

(** The directory checked by the climb for a package that is an entry of
    [dir]: [dir] itself, unless its name starts with [@]. *)
Lemma parentDir_unscoped base dir name :
  is_segment dir = true -> String.get 0 dir <> Some "@"%char -> is_segment name = true ->
  PacScan.parentDir (entry (entry base dir) name) = (entry base dir, dir).
Proof.
  intros Hdir Hscope Hname. unfold PacScan.parentDir.
  rewrite (dirname_entry _ _ Hname (entry_nonempty _ _) (entry_last _ _ Hdir)).
  rewrite (basename_entry _ _ Hdir). by rewrite bool_decide_eq_false_2.
Qed.

(** For a package below a scope directory [@scope] of [dir], it is [dir]
    as well: the scope directory is passed over. *)
Lemma parentDir_scoped base dir scope name :
  is_segment dir = true -> slash_free scope = true -> is_segment name = true ->
  PacScan.parentDir (entry (entry (entry base dir) (String "@" scope)) name)
  = (entry base dir, dir).
Proof.
  intros Hdir Hscope Hname.
  assert (Hat : is_segment (String "@" scope) = true) by exact Hscope.
  unfold PacScan.parentDir.
  rewrite (dirname_entry _ _ Hname (entry_nonempty _ _) (entry_last _ _ Hat)).
  rewrite (basename_entry _ _ Hat). rewrite bool_decide_eq_true_2 by reflexivity.
  rewrite (dirname_entry _ _ Hat (entry_nonempty _ _) (entry_last _ _ Hdir)).
  by rewrite (basename_entry _ _ Hdir).
Qed.

(** ** Every scan completes *)

Lemma substring_length (s : string) : forall m,
  m <= String.length s -> String.length (String.substring 0 m s) = m.
Proof.
  induction s as [|c s IH]; intros [|m] Hm; simpl in *; try done; [lia|].
  rewrite IH; lia.
Qed.

Lemma dirname_end_bound (p : string) (i : nat) : forall matchedSlash e,
  path.dirname_end p i matchedSlash = Some e -> 1 <= e <= i.
Proof.
  induction i as [|i IH]; intros matchedSlash e; simpl; [done|].
  destruct (path.is_slash _).
  - destruct matchedSlash; [|intros [= <-]; lia].
    intros H. apply IH in H. lia.
  - intros H. apply IH in H. lia.
Qed.

(** The results of [dirname]: one of three fixed paths, or a proper,
    non-empty prefix. *)
Lemma dirname_cases (p : string) :
  path.dirname p = "." \/ path.dirname p = "/" \/ path.dirname p = "//"
  \/ (1 <= String.length (path.dirname p) < String.length p).
Proof.
  unfold path.dirname. destruct (Nat.eqb_spec (String.length p) 0) as [|Hlen]; [auto|].
  destruct (path.dirname_end p (String.length p - 1) true) as [e|] eqn:He.
  - apply dirname_end_bound in He.
    destruct (path.is_slash (String.get 0 p) && Nat.eqb e 1); [auto|].
    right; right; right. rewrite substring_length; lia.
  - destruct (path.is_slash (String.get 0 p)); auto.
Qed.

Lemma dirname_shorter (p : string) :
  path.basename (path.dirname p) <> "" -> path.basename (path.dirname p) <> "." ->
  String.length (path.dirname p) < String.length p.
Proof.
  intros Hempty Hdot.
  destruct (dirname_cases p) as [H|[H|[H|H]]]; [| | |lia];
    rewrite H in Hempty, Hdot; by vm_compute in Hempty, Hdot.
Qed.

Lemma dirname_length (p : string) :
  p <> "" -> 1 <= String.length (path.dirname p) <= String.length p.
Proof.
  intros Hp. assert (Hlen : 1 <= String.length p) by (destruct p; [done|simpl; lia]).
  destruct (dirname_cases p) as [H|[H|[H|H]]]; [| | |lia].
  - rewrite H. simpl. lia.
  - rewrite H. simpl. lia.
  - rewrite H. simpl. split; [lia|]. revert H. unfold path.dirname.
    destruct (Nat.eqb (String.length p) 0); [done|].
    destruct (path.dirname_end p (String.length p - 1) true) as [e|] eqn:He.
    + apply dirname_end_bound in He.
      destruct (path.is_slash (String.get 0 p) && Nat.eqb e 1) eqn:Hroot.
      * apply andb_true_iff in Hroot as [_ He1]. apply Nat.eqb_eq in He1. lia.
      * intros Hsub. apply (f_equal String.length) in Hsub.
        rewrite substring_length in Hsub; simpl in Hsub; lia.
    + by destruct (path.is_slash (String.get 0 p)).
Qed.

(** The directory from which the climb goes on has a shorter name. *)
Lemma parentDir_shorter (childDirPath parentDirPath : string) :
  PacScan.parentDir childDirPath = (parentDirPath, "node_modules") ->
  String.length parentDirPath < String.length childDirPath.
Proof.
  unfold PacScan.parentDir. case_bool_decide as Hscope.
  - intros [= <- Hname].
    assert (String.length (path.dirname childDirPath) < String.length childDirPath).
    { apply dirname_shorter; intros H; by rewrite H in Hscope. }
    assert (String.length (path.dirname (path.dirname childDirPath))
            < String.length (path.dirname childDirPath)).
    { apply dirname_shorter; by rewrite Hname. }
    lia.
  - intros [= <- Hname]. apply dirname_shorter; by rewrite Hname.
Qed.

Section Complete.

Variable w : World.
Hypothesis Hw : well_formed w.

Lemma outermost_total fuel : forall dirPath,
  String.length dirPath < fuel -> outermost w fuel dirPath <> None.
Proof.
  induction fuel as [|fuel IH]; intros dirPath Hlen; [lia|].
  cbn [outermost]. destruct (pkgDir w dirPath) as [childDirPath|] eqn:Hchild; [|done].
  destruct (PacScan.parentDir childDirPath) as [parentDirPath parentDirName] eqn:Hparent.
  destruct (String.eqb_spec parentDirName "node_modules") as [->|]; [|done].
  apply parentDir_shorter in Hparent. apply Hw in Hchild as [Hle _].
  specialize (IH parentDirPath ltac:(lia)).
  by destruct (outermost w fuel parentDirPath) as [[p|]|].
Qed.

Lemma outermost_candidate fuel dirPath :
  pkgDir w dirPath = Some dirPath ->
  String.length dirPath < fuel ->
  exists d, outermost w fuel dirPath = Some (Some d).
Proof.
  intros Hdir Hlen. pose proof (outermost_total fuel dirPath Hlen) as Htotal.
  destruct fuel as [|fuel]; [lia|]. cbn [outermost] in *. rewrite Hdir in *.
  destruct (PacScan.parentDir dirPath) as [parentDirPath parentDirName].
  destruct (String.eqb parentDirName "node_modules"); [|by eexists].
  destruct (outermost w fuel parentDirPath) as [[p|]|]; [by eexists|by eexists|done].
Qed.

Lemma resolvePackage_directory o filePath pkg :
  resolvePackage w o = (filePath, Some pkg) ->
  pkgDir w (directory pkg) = Some (directory pkg).
Proof.
  unfold resolvePackage. destruct (path o) as [f|].
  - destruct (pkgDir w f) as [c|] eqn:Hc; [|done]. intros [= _ <-].
    cbn [PacScan._getPackage directory]. by apply Hw in Hc as [_ Hc].
  - destruct (whoIsThere w _) as [|caller callers] eqn:Hcallers; [done|].
    cbn [head]. intros [= _ Hpkg].
    apply (proj2 Hw (PacScan._findCaller_options o) caller pkg); [|exact Hpkg].
    rewrite Hcallers. by left.
Qed.

(** In a well-formed world a scan throws for want of a source file, fails
    with the error of [fs.stat], or returns packages; it never leaves the
    model. *)
Lemma scanResult_complete o :
  scanResult w o = Throw MissingSourceFile
  \/ (exists code filePath, scanResult w o = Throw (SystemError code "stat" filePath))
  \/ exists pkgs, scanResult w o = Normal (Plain pkgs).
Proof.
  unfold scanResult, baseDirectory.
  destruct (resolvePackage w o) as [[filePath|] [pkg|]] eqn:Hres; auto;
    [|destruct (stat w filePath) as [code|isDirectory]; by eauto].
  destruct (negb (includeParents o)); [by eauto|].
  apply resolvePackage_directory in Hres.
  destruct (outermost_candidate (S (String.length (directory pkg))) (directory pkg) Hres)
    as [d ->]; [lia|]. by eauto.
Qed.

Lemma scans_complete o st :
  reachable w st ->
  (exists e, (sync w o st).1 = Throw e
             /\ (scan w o st).1 = Normal (Promise (Rejected e)))
  \/ (exists pkgs, (sync w o st).1 = Normal (Plain pkgs)
                   /\ (scan w o st).1 = Normal (Promise (Fulfilled pkgs))).
Proof.
  intros Hst. apply reachable_coherent in Hst.
  destruct (sync_coherent w o st Hst) as [-> _].
  destruct (scan_coherent w o st Hst) as [-> _].
  destruct (scanResult_complete (PacScan._parseOptions o))
    as [->|[(code & filePath & ->)|[pkgs ->]]];
    [left; by eexists | left; by eexists | right; by exists pkgs].
Qed.

End Complete.

(** The worlds built from a finite file system are well-formed. *)

Lemma fs_pkgDir_manifest fs fuel : forall p c,
  fs_pkgDir fs fuel p = Some c -> has_manifest fs c = true.
Proof.
  induction fuel as [|fuel IH]; intros p c; [done|]. cbn [fs_pkgDir].
  destruct (has_manifest fs p) eqn:Hhas; [by intros [= <-]|].
  destruct (String.eqb (path.dirname p) p); [done|]. apply IH.
Qed.

Lemma fs_pkgDir_length fs fuel : forall p c,
  p <> "" -> fs_pkgDir fs fuel p = Some c -> String.length c <= String.length p.
Proof.
  induction fuel as [|fuel IH]; intros p c Hp; [done|]. cbn [fs_pkgDir].
  destruct (has_manifest fs p); [by intros [= <-]|].
  destruct (String.eqb (path.dirname p) p); [done|]. intros Hc.
  pose proof (dirname_length p Hp) as Hlen.
  apply IH in Hc; [lia|]. intros Hd. rewrite Hd in Hlen. simpl in Hlen. lia.
Qed.

Lemma world_of_well_formed fs callers :
  Forall (fun caller => forall pkg, package caller = Some pkg ->
            has_manifest fs (directory pkg) = true) callers ->
  well_formed (world_of fs callers).
Proof.
  intros Hcallers.
  assert (Hself : forall c, has_manifest fs c = true ->
    pkgDir (world_of fs callers) c = Some c).
  { intros c Hc. cbn [pkgDir world_of fs_pkgDir]. by rewrite Hc. }
  split.
  - intros d c Hc. split.
    + destruct d as [|x d].
      * revert Hc. cbn [pkgDir world_of fs_pkgDir String.length].
        destruct (has_manifest fs ""); [by intros [= <-]|].
        by destruct (String.eqb (path.dirname "") "").
      * by apply fs_pkgDir_length in Hc.
    + by apply Hself, (fs_pkgDir_manifest _ _ _ _ Hc).
  - intros o caller pkg Hin Hpkg. apply Hself.
    cbn [whoIsThere world_of] in Hin.
    by apply (proj1 (Forall_forall _ _) Hcallers caller Hin).
Qed.

Example flat_world_well_formed : well_formed flat_world.
Proof.
  apply world_of_well_formed. repeat constructor. intros pkg [= <-]. by vm_compute.
Qed.

Example unpackaged_world_well_formed : well_formed unpackaged_world.
Proof. apply world_of_well_formed. constructor. Qed.

(** ** Reading a manifest *)

Lemma truthy_false (v : json) :
  truthy v = false <-> v = JUndefined \/ v = JNull \/ v = JFalse \/ v = JZero \/ v = JString "".
Proof.
  split.
  - destruct v as [| | | |s]; simpl; auto.
    destruct (String.eqb_spec s ""); [subst; auto 6 | done].
  - intros [->|[->|[->|[->| ->]]]]; reflexivity.
Qed.

(** C10: a manifest whose [main] is present but falsy yields the record
    with [main] absent, the same record as a manifest without the field;
    [main] is a path joined onto the package directory only for a truthy
    [main]. *)
Theorem getPackage_falsy_main (w : World) (dirPath : string) (v : json)
    (Hpresent : v <> JUndefined) (Hfalsy : truthy v = false)
    (Hmain : pkg_main (require w (path.join [dirPath; "package.json"])) = v) :
  let pkg := require w (path.join [dirPath; "package.json"]) in
  PacScan._getPackage w dirPath
    = {| directory := dirPath; main := None;
         name := pkg_name pkg; version := pkg_version pkg |}
  /\ (forall w', require w' (path.join [dirPath; "package.json"])
                 = manifest JUndefined (pkg_name pkg) (pkg_version pkg) ->
        PacScan._getPackage w' dirPath = PacScan._getPackage w dirPath)
  /\ (forall w' p, main (PacScan._getPackage w' dirPath) = Some p ->
        exists s, pkg_main (require w' (path.join [dirPath; "package.json"])) = JString s
          /\ truthy (JString s) = true /\ p = path.join [dirPath; s]).
Proof.
  intros pkg. unfold PacScan._getPackage. fold pkg. subst pkg.
  rewrite Hmain, Hfalsy. split; [reflexivity|]. split.
  - intros w' ->. reflexivity.
  - intros w' p. simpl.
    destruct (pkg_main (require w' _)) as [| | | |s] eqn:Hm; simpl; try done.
    destruct (String.eqb s "") eqn:Hs; simpl; [done|].
    intros [= <-]. exists s. by rewrite Hs.
Qed.

Lemma getPackage_falsy_main_witness :
  PacScan._getPackage empty_main_world "/srv/lib"
  = {| directory := "/srv/lib"; main := None; name := "lib"; version := "0.1.0" |}.
Proof.
  refine (proj1 (getPackage_falsy_main empty_main_world "/srv/lib" (JString "") _ _ _));
    [discriminate | reflexivity | reflexivity].
Defined.

(** ** Resolving the base directory *)

Lemma parseOptions_Some (o : Options) : PacScan._parseOptions (Some o) = o.
Proof. by destruct o. Qed.

(** C4: without the [path] option and without a caller, the synchronous
    scan throws and the asynchronous scan returns a rejected promise, both
    with the one message [Could not resolve base directory as file was
    missing]; the caller was looked up once, nothing was searched and the
    caches are as they were. *)
Theorem missing_source_file (w : World) (o : option Options) (st : State)
    (Hpath : path (PacScan._parseOptions o) = None)
    (Hcaller : whoIsThere w (PacScan._findCaller_options (PacScan._parseOptions o)) = []) :
  let st' :=
    record_calls [CallWhoIsThere (PacScan._findCaller_options (PacScan._parseOptions o))] st in
  sync w o st
    = (Throw (Error "Could not resolve base directory as file was missing"), st')
  /\ scan w o st
    = (Normal (Promise (Rejected
         (Error "Could not resolve base directory as file was missing"))), st')
  /\ availablePackagesCache st' = availablePackagesCache st
  /\ parentPackageDirectoriesCache st' = parentPackageDirectoriesCache st.
Proof.
  intros st'. unfold sync, scan, PacScan.scan, PacScan._resolveBaseDirectory.
  rewrite Hpath. unfold PacScan._resolvePackageFromCaller.
  rewrite !findCaller_observe, Hcaller. by repeat split.
Qed.

Lemma missing_source_file_witness :
  fst (sync (world_of flat_fs []) None initial) = Throw MissingSourceFile
  /\ fst (scan (world_of flat_fs []) None initial)
     = Normal (Promise (Rejected MissingSourceFile)).
Proof.
  destruct (missing_source_file (world_of flat_fs []) None initial) as (Hs & Ha & _);
    [reflexivity | reflexivity |].
  rewrite Hs, Ha. split; reflexivity.
Defined.

(** C9: when a file path was determined but no package owns it, [fs.stat]
    is asked about the path.  If it answers, the base directory is the path
    when it is a directory and its parent directory otherwise; if it fails,
    the scan fails with its error and no base directory is passed on.
    [includeParents] changes nothing, neither for [_resolveBaseDirectory]
    nor for the scans. *)
Theorem base_directory_without_package (w : World) (o : Options) (filePath : string)
    (Hfile : (path o = Some filePath /\ pkgDir w filePath = None)
             \/ (path o = None
                 /\ exists caller,
                      head (whoIsThere w (PacScan._findCaller_options o)) = Some caller
                      /\ file caller = Some filePath /\ package caller = None)) :
  (forall isDirectory, stat w filePath = inr isDirectory ->
     let dirPath := if isDirectory then filePath else path.dirname filePath in
     forall sync callback st,
       PacScan._resolveBaseDirectory w sync o callback st
       = observe sync (callback (Some dirPath)
           (record_calls [CallStat filePath] (record_calls (resolvePackage_calls o) st))))
  /\ (forall code, stat w filePath = inl code ->
        forall sync callback st,
          PacScan._resolveBaseDirectory w sync o callback st
          = observe sync (Throw (SystemError code "stat" filePath),
              record_calls [CallStat filePath] (record_calls (resolvePackage_calls o) st)))
  /\ (forall b sync callback st,
        PacScan._resolveBaseDirectory w sync (with_includeParents b o) callback st
        = PacScan._resolveBaseDirectory w sync o callback st)
  /\ (forall b st,
        sync w (Some (with_includeParents b o)) st = sync w (Some o) st
        /\ scan w (Some (with_includeParents b o)) st = scan w (Some o) st).
Proof.
  assert (Hany : forall b sync callback st,
    PacScan._resolveBaseDirectory w sync (with_includeParents b o) callback st
    = observe sync
        (match stat w filePath with
         | inl code =>
             (Throw (SystemError code "stat" filePath),
              record_calls [CallStat filePath] (record_calls (resolvePackage_calls o) st))
         | inr isDirectory =>
             callback (Some (if isDirectory then filePath else path.dirname filePath))
               (record_calls [CallStat filePath]
                  (record_calls (resolvePackage_calls o) st))
         end)).
  { intros b sync callback st.
    unfold PacScan._resolveBaseDirectory, resolvePackage_calls.
    destruct Hfile as [[Hp Hdir]|(Hp & caller & Hcaller & Hf & Hpkg)];
      cbn [path with_includeParents]; rewrite Hp.
    - unfold PacScan._resolvePackageFromPath.
      rewrite findPackageDirectory_observe, Hdir, isDirectory_observe.
      apply observe_idempotent.
    - unfold PacScan._resolvePackageFromCaller.
      rewrite findCaller_observe.
      change (PacScan._findCaller_options (with_includeParents b o))
        with (PacScan._findCaller_options o).
      rewrite Hcaller, Hf, Hpkg, isDirectory_observe.
      apply observe_idempotent. }
  assert (Hsame : forall sync callback st,
    PacScan._resolveBaseDirectory w sync o callback st
    = PacScan._resolveBaseDirectory w sync (with_includeParents (includeParents o) o)
        callback st).
  { intros. by destruct o. }
  split; [|split; [|split]].
  - intros isDirectory Hstat dirPath sync callback st.
    by rewrite Hsame, Hany, Hstat.
  - intros code Hstat sync callback st. by rewrite Hsame, Hany, Hstat.
  - intros b sync callback st. by rewrite Hsame, !Hany.
  - intros b st. unfold sync, scan, PacScan.scan. rewrite !parseOptions_Some.
    by rewrite (Hsame true), (Hsame false), !Hany.
Qed.

Lemma base_directory_without_package_witness :
  (forall b,
     fst (sync unpackaged_world (Some (with_path "/tmp/fixtures/unpackaged/index.js" b))
            initial)
     = Normal (Plain
         [ {| directory := "/tmp/fixtures/unpackaged/node_modules/foo/node_modules/bar";
              main := Some "/tmp/fixtures/unpackaged/node_modules/foo/node_modules/bar/index";
              name := "bar"; version := "1.2.0" |};
           {| directory := "/tmp/fixtures/unpackaged/node_modules/foo";
              main := Some "/tmp/fixtures/unpackaged/node_modules/foo/index.js";
              name := "foo"; version := "1.1.0" |} ]))
  /\ (forall callback st,
        PacScan._resolveBaseDirectory unpackaged_world true
          (with_path "/tmp/fixtures/unpackaged" true) callback st
        = callback (Some "/tmp/fixtures/unpackaged")
            (record_calls [CallPkgDir "/tmp/fixtures/unpackaged";
                           CallStat "/tmp/fixtures/unpackaged"] st))
  /\ (forall callback st,
        PacScan._resolveBaseDirectory unpackaged_world true
          (with_path "/tmp/fixtures/unpackaged/index.js" true) callback st
        = callback (Some "/tmp/fixtures/unpackaged")
            (record_calls [CallPkgDir "/tmp/fixtures/unpackaged/index.js";
                           CallStat "/tmp/fixtures/unpackaged/index.js"] st)).
Proof.
  assert (Hfile : forall b p,
    pkgDir unpackaged_world p = None ->
    (path (with_path p b) = Some p /\ pkgDir unpackaged_world p = None)
    \/ (path (with_path p b) = None
        /\ exists caller,
             head (whoIsThere unpackaged_world (PacScan._findCaller_options (with_path p b)))
             = Some caller
             /\ file caller = Some p /\ package caller = None))
    by (intros b p Hnone; left; by split).
  assert (Hnone1 : pkgDir unpackaged_world "/tmp/fixtures/unpackaged/index.js" = None)
    by (vm_compute; reflexivity).
  assert (Hnone2 : pkgDir unpackaged_world "/tmp/fixtures/unpackaged" = None)
    by (vm_compute; reflexivity).
  assert (Hstat1 : stat unpackaged_world "/tmp/fixtures/unpackaged/index.js" = inr false)
    by (vm_compute; reflexivity).
  assert (Hstat2 : stat unpackaged_world "/tmp/fixtures/unpackaged" = inr true)
    by (vm_compute; reflexivity).
  split; [|split].
  - intros b.
    destruct (base_directory_without_package unpackaged_world
                (with_path "/tmp/fixtures/unpackaged/index.js" false)
                "/tmp/fixtures/unpackaged/index.js" (Hfile false _ Hnone1))
      as (_ & _ & _ & Hscan).
    destruct (Hscan b initial) as [Hsync _].
    change (with_includeParents b (with_path "/tmp/fixtures/unpackaged/index.js" false))
      with (with_path "/tmp/fixtures/unpackaged/index.js" b) in Hsync.
    rewrite Hsync. vm_compute. reflexivity.
  - intros callback st.
    destruct (base_directory_without_package unpackaged_world
                (with_path "/tmp/fixtures/unpackaged" true)
                "/tmp/fixtures/unpackaged" (Hfile true _ Hnone2)) as (Hbase & _).
    rewrite (Hbase true Hstat2). reflexivity.
  - intros callback st.
    destruct (base_directory_without_package unpackaged_world
                (with_path "/tmp/fixtures/unpackaged/index.js" true)
                "/tmp/fixtures/unpackaged/index.js" (Hfile true _ Hnone1)) as (Hbase & _).
    rewrite (Hbase false Hstat1). reflexivity.
Defined.

(** C9, as stated, fails for a path that does not exist.  No package owns
    [missing.js] in the fixture [unpackaged], and it is no directory, so the
    claim has the scan start from its parent directory [unpackaged], where
    two packages are found.  But [fs.stat] fails: the synchronous scan
    throws its error, the asynchronous one is rejected with it, and
    [_resolveBaseDirectory] does not call its callback. *)
Lemma missing_path_without_base_directory :
  let bar := {| directory := "/tmp/fixtures/unpackaged/node_modules/foo/node_modules/bar";
                main := Some "/tmp/fixtures/unpackaged/node_modules/foo/node_modules/bar/index";
                name := "bar"; version := "1.2.0" |} in
  let foo := {| directory := "/tmp/fixtures/unpackaged/node_modules/foo";
                main := Some "/tmp/fixtures/unpackaged/node_modules/foo/index.js";
                name := "foo"; version := "1.1.0" |} in
  let enoent := SystemError "ENOENT" "stat" "/tmp/fixtures/unpackaged/missing.js" in
  path.dirname "/tmp/fixtures/unpackaged/missing.js" = "/tmp/fixtures/unpackaged"
  /\ pkgDir unpackaged_world "/tmp/fixtures/unpackaged/missing.js" = None
  /\ stat unpackaged_world "/tmp/fixtures/unpackaged/missing.js" = inl "ENOENT"
  /\ (sync unpackaged_world (Some (with_path "/tmp/fixtures/unpackaged" false)) initial).1
     = Normal (Plain [bar; foo])
  /\ (sync unpackaged_world (Some (with_path "/tmp/fixtures/unpackaged/missing.js" false))
        initial).1
     = Throw enoent
  /\ (scan unpackaged_world (Some (with_path "/tmp/fixtures/unpackaged/missing.js" false))
        initial).1
     = Normal (Promise (Rejected enoent))
  /\ PacScan._resolveBaseDirectory unpackaged_world true
       (with_path "/tmp/fixtures/unpackaged/missing.js" false) show_directory initial
     = (Throw enoent,
        record_calls [CallPkgDir "/tmp/fixtures/unpackaged/missing.js";
                      CallStat "/tmp/fixtures/unpackaged/missing.js"] initial)
  /\ PacScan._resolveBaseDirectory unpackaged_world true
       (with_path "/tmp/fixtures/unpackaged/missing.js" false) show_directory initial
     <> show_directory (Some "/tmp/fixtures/unpackaged")
          (record_calls [CallPkgDir "/tmp/fixtures/unpackaged/missing.js";
                         CallStat "/tmp/fixtures/unpackaged/missing.js"] initial).
Proof.
  intros bar foo enoent. repeat split; try (vm_compute; reflexivity).
  vm_compute. discriminate.
Qed.

(** ** The climb *)

(** One step of [_findBaseDirectory] for a directory that is not cached
    and lies in a package. *)
Lemma findBaseDirectory_step (w : World) (sync : bool) (fuel : nat)
    (dirPath childDirPath : string) (callback : option string -> M) (st : State) :
  parentPackageDirectoriesCache st !! dirPath = None ->
  pkgDir w dirPath = Some childDirPath ->
  PacScan._findBaseDirectory w sync (S fuel) dirPath callback st
  = observe sync
      (if String.eqb (PacScan.parentDir childDirPath).2 "node_modules" then
         PacScan._findBaseDirectory w sync fuel (PacScan.parentDir childDirPath).1
           (fun parentPkgDirPath =>
              callback (Some (default childDirPath parentPkgDirPath)))
           (record_calls [CallPkgDir dirPath] st)
       else
         callback (Some childDirPath)
           (parentPackageDirectoriesCache_set dirPath childDirPath
              (record_calls [CallPkgDir dirPath] st))).
Proof.
  intros Hmiss Hchild. cbn [PacScan._findBaseDirectory]. rewrite Hmiss.
  rewrite findPackageDirectory_observe, Hchild.
  destruct (PacScan.parentDir childDirPath) as [parentDirPath parentDirName].
  cbn [fst snd].
  destruct (String.eqb parentDirName "node_modules"); [|reflexivity].
  f_equal.
Qed.

(** C7: in the climb, the name compared with [node_modules] is that of the
    directory above the package directory, unless that name starts with
    [@]: then it is the name of the directory one level further up.  The
    climb goes on from the directory so checked when the name matches, and
    stops at the package directory otherwise.  So for a package installed
    as [base/dir/name] the name checked is [dir], and for one installed
    below a scope, as [base/dir/@scope/name], it is [dir] as well. *)
Theorem climb_skips_scope :
  (forall (w : World) (sync : bool) (fuel : nat) (dirPath childDirPath : string)
          (callback : option string -> M) (st : State),
     parentPackageDirectoriesCache st !! dirPath = None ->
     pkgDir w dirPath = Some childDirPath ->
     let parent := path.dirname childDirPath in
     let grandparent := path.dirname parent in
     let scoped := bool_decide (String.get 0 (path.basename parent) = Some "@"%char) in
     let checked := if scoped then grandparent else parent in
     let st1 := record_calls [CallPkgDir dirPath] st in
     PacScan.parentDir childDirPath = (checked, path.basename checked)
     /\ PacScan._findBaseDirectory w sync (S fuel) dirPath callback st
        = observe sync
            (if String.eqb (path.basename checked) "node_modules" then
               PacScan._findBaseDirectory w sync fuel checked
                 (fun parentPkgDirPath =>
                    callback (Some (default childDirPath parentPkgDirPath))) st1
             else
               callback (Some childDirPath)
                 (parentPackageDirectoriesCache_set dirPath childDirPath st1)))
  /\ (forall base dir name,
        is_segment dir = true -> String.get 0 dir <> Some "@"%char ->
        is_segment name = true ->
        PacScan.parentDir (entry (entry base dir) name) = (entry base dir, dir))
  /\ (forall base dir scope name,
        is_segment dir = true -> slash_free scope = true -> is_segment name = true ->
        PacScan.parentDir (entry (entry (entry base dir) (String "@" scope)) name)
        = (entry base dir, dir)).
Proof.
  split; [|split; [exact parentDir_unscoped | exact parentDir_scoped]].
  intros w sync fuel dirPath childDirPath callback st Hmiss Hchild
    parent grandparent scoped checked st1.
  assert (Hparent : PacScan.parentDir childDirPath = (checked, path.basename checked)).
  { unfold PacScan.parentDir. fold parent. fold scoped. subst checked.
    by destruct scoped. }
  split; [exact Hparent|].
  rewrite (findBaseDirectory_step w sync fuel dirPath childDirPath callback st Hmiss Hchild).
  by rewrite Hparent.
Qed.

Lemma climb_skips_scope_witness :
  PacScan.parentDir "/tmp/fixtures/flat/node_modules/@fu/fizz"
    = ("/tmp/fixtures/flat/node_modules", "node_modules")
  /\ PacScan.parentDir "/tmp/fixtures/flat/node_modules/foo"
    = ("/tmp/fixtures/flat/node_modules", "node_modules")
  /\ PacScan.parentDir "/tmp/fixtures/@fu/flat" = ("/tmp/fixtures", "fixtures")
  /\ PacScan._findBaseDirectory flat_world true 3
       "/tmp/fixtures/flat/node_modules/@fu/fizz/lib"
       (PacScan.scanDirectory flat_world true) initial
     = PacScan._findBaseDirectory flat_world true 2 "/tmp/fixtures/flat/node_modules"
         (fun parentPkgDirPath =>
            PacScan.scanDirectory flat_world true
              (Some (default "/tmp/fixtures/flat/node_modules/@fu/fizz" parentPkgDirPath)))
         (record_calls [CallPkgDir "/tmp/fixtures/flat/node_modules/@fu/fizz/lib"] initial).
Proof.
  split; [|split; [|split]].
  - apply (proj2 (proj2 climb_skips_scope) "/tmp/fixtures/flat" "node_modules" "fu" "fizz");
      reflexivity.
  - apply (proj1 (proj2 climb_skips_scope) "/tmp/fixtures/flat" "node_modules" "foo");
      [reflexivity | discriminate | reflexivity].
  - apply (proj2 (proj2 climb_skips_scope) "/tmp" "fixtures" "fu" "flat"); reflexivity.
  - refine (proj2 (proj1 climb_skips_scope flat_world true 2
      "/tmp/fixtures/flat/node_modules/@fu/fizz/lib"
      "/tmp/fixtures/flat/node_modules/@fu/fizz"
      (PacScan.scanDirectory flat_world true) initial _ _)); reflexivity.
Defined.

Lemma climb_candidate (w : World) (fuel : nat) (dirPath childDirPath : string) (st : State) :
  parentPackageDirectoriesCache st !! dirPath = None ->
  pkgDir w dirPath = Some childDirPath ->
  (climb w (S fuel) dirPath st).1 <> Some None.
Proof.
  intros Hmiss Hchild. cbn [climb]. rewrite Hmiss, Hchild.
  destruct (PacScan.parentDir childDirPath) as [parentDirPath parentDirName].
  destruct (String.eqb parentDirName "node_modules"); [|done].
  by destruct (climb w fuel parentDirPath _) as [[[p|]|] st'].
Qed.

(** C8: when the climb goes up from a package directory and the step
    above finds no package -- as it does when the directory above is not
    cached and [pkgDir] finds nothing for it -- the callback receives that
    package directory; and once the climb has found a package directory,
    what it passes on is never [null]. *)
Theorem climb_keeps_candidate (w : World) (sync : bool) (fuel : nat)
    (dirPath childDirPath : string) (st : State)
    (Hmiss : parentPackageDirectoriesCache st !! dirPath = None)
    (Hchild : pkgDir w dirPath = Some childDirPath) :
  let st1 := record_calls [CallPkgDir dirPath] st in
  (forall parentDirPath st2,
     PacScan.parentDir childDirPath = (parentDirPath, "node_modules") ->
     (forall callback',
        observe sync (PacScan._findBaseDirectory w sync fuel parentDirPath callback' st1)
        = observe sync (callback' None st2)) ->
     forall callback,
       observe sync (PacScan._findBaseDirectory w sync (S fuel) dirPath callback st)
       = observe sync (callback (Some childDirPath) st2))
  /\ (forall parentDirPath,
        PacScan.parentDir childDirPath = (parentDirPath, "node_modules") ->
        parentPackageDirectoriesCache st !! parentDirPath = None ->
        pkgDir w parentDirPath = None ->
        0 < fuel ->
        forall callback,
          observe sync (PacScan._findBaseDirectory w sync (S fuel) dirPath callback st)
          = observe sync (callback (Some childDirPath)
                            (record_calls [CallPkgDir dirPath; CallPkgDir parentDirPath] st)))
  /\ (exists st',
        (forall callback,
           observe sync (PacScan._findBaseDirectory w sync (S fuel) dirPath callback st)
           = observe sync (Outside OutOfFuel, st'))
        \/ (exists candidate, forall callback,
              observe sync (PacScan._findBaseDirectory w sync (S fuel) dirPath callback st)
              = observe sync (callback (Some candidate) st'))).
Proof.
  intros st1.
  assert (Hup : forall parentDirPath st2,
    PacScan.parentDir childDirPath = (parentDirPath, "node_modules") ->
    (forall callback',
       observe sync (PacScan._findBaseDirectory w sync fuel parentDirPath callback' st1)
       = observe sync (callback' None st2)) ->
    forall callback,
      observe sync (PacScan._findBaseDirectory w sync (S fuel) dirPath callback st)
      = observe sync (callback (Some childDirPath) st2)).
  { intros parentDirPath st2 Hparent Hnone callback.
    rewrite (findBaseDirectory_step w sync fuel dirPath childDirPath callback st Hmiss Hchild).
    rewrite Hparent, observe_idempotent. cbn [fst snd]. fold st1.
    rewrite String.eqb_refl. by rewrite Hnone. }
  split; [exact Hup|]. split.
  - intros parentDirPath Hparent Hmiss' Hnone Hfuel callback.
    apply (Hup parentDirPath); [exact Hparent|]. intros callback'.
    destruct fuel as [|fuel']; [lia|].
    cbn [PacScan._findBaseDirectory]. cbn [st1 record_calls parentPackageDirectoriesCache].
    by rewrite Hmiss', findPackageDirectory_observe, Hnone, observe_idempotent.
  - pose proof (climb_candidate w fuel dirPath childDirPath st Hmiss Hchild) as Hsome.
    destruct (climb w (S fuel) dirPath st) as [[[candidate|]|] st'] eqn:Hclimb;
      [|done|]; exists st'.
    + right. exists candidate. intros callback.
      by rewrite findBaseDirectory_observe, Hclimb.
    + left. intros callback. by rewrite findBaseDirectory_observe, Hclimb.
Qed.

Lemma climb_keeps_candidate_witness :
  PacScan._findBaseDirectory unpackaged_world true 2
    "/tmp/fixtures/unpackaged/node_modules/foo"
    (PacScan.scanDirectory unpackaged_world true) initial
  = PacScan.scanDirectory unpackaged_world true
      (Some "/tmp/fixtures/unpackaged/node_modules/foo")
      (record_calls [CallPkgDir "/tmp/fixtures/unpackaged/node_modules/foo";
                     CallPkgDir "/tmp/fixtures/unpackaged/node_modules"] initial).
Proof.
  assert (Hmiss : parentPackageDirectoriesCache initial
                    !! "/tmp/fixtures/unpackaged/node_modules/foo" = None) by reflexivity.
  assert (Hchild : pkgDir unpackaged_world "/tmp/fixtures/unpackaged/node_modules/foo"
                   = Some "/tmp/fixtures/unpackaged/node_modules/foo") by reflexivity.
  assert (Hparent : PacScan.parentDir "/tmp/fixtures/unpackaged/node_modules/foo"
                    = ("/tmp/fixtures/unpackaged/node_modules", "node_modules"))
    by (vm_compute; reflexivity).
  assert (Hnone : forall callback',
    observe true (PacScan._findBaseDirectory unpackaged_world true 1
                    "/tmp/fixtures/unpackaged/node_modules" callback'
                    (record_calls [CallPkgDir "/tmp/fixtures/unpackaged/node_modules/foo"]
                       initial))
    = observe true (callback' None
        (record_calls [CallPkgDir "/tmp/fixtures/unpackaged/node_modules/foo";
                       CallPkgDir "/tmp/fixtures/unpackaged/node_modules"] initial)))
    by (intros callback'; vm_compute; reflexivity).
  exact (proj1 (climb_keeps_candidate unpackaged_world true 1 _ _ initial Hmiss Hchild)
           "/tmp/fixtures/unpackaged/node_modules" _ Hparent Hnone
           (PacScan.scanDirectory unpackaged_world true)).
Defined.

(** The climb writes the cache only for directories whose names are no
    longer than that of the directory it starts from. *)
Lemma climb_cache_keys (w : World) (Hw : well_formed w) (fuel : nat) :
  forall dirPath st k,
    String.length dirPath < String.length k ->
    parentPackageDirectoriesCache (climb w fuel dirPath st).2 !! k
    = parentPackageDirectoriesCache st !! k.
Proof.
  induction fuel as [|fuel IH]; intros dirPath st k Hk; [reflexivity|].
  cbn [climb]. destruct (parentPackageDirectoriesCache st !! dirPath); [reflexivity|].
  destruct (pkgDir w dirPath) as [childDirPath|] eqn:Hchild; [|reflexivity].
  destruct (PacScan.parentDir childDirPath) as [parentDirPath parentDirName] eqn:Hparent.
  destruct (String.eqb_spec parentDirName "node_modules") as [->|].
  - apply parentDir_shorter in Hparent. apply Hw in Hchild as [Hle _].
    specialize (IH parentDirPath (record_calls [CallPkgDir dirPath] st) k ltac:(lia)).
    by destruct (climb w fuel parentDirPath _) as [[[p|]|] st'].
  - cbn. apply lookup_insert_ne. intros ->. lia.
Qed.

(** C3: a climb that goes up through [node_modules] leaves the cache of
    parent directories without an entry for the directory it started from,
    whatever it passes to its callback.  So in the fixture [flat]: the climb
    from [flat/node_modules/foo] passes [flat] to its callback, and
    afterwards the cache has an entry for [flat/node_modules] only; the same
    holds after a whole scan with [includeParents]. *)
Theorem climb_leaves_start_uncached :
  (forall (w : World) (sync : bool) (fuel : nat) (dirPath childDirPath parentDirPath : string)
          (st : State),
     well_formed w ->
     parentPackageDirectoriesCache st !! dirPath = None ->
     pkgDir w dirPath = Some childDirPath ->
     PacScan.parentDir childDirPath = (parentDirPath, "node_modules") ->
     exists st',
       parentPackageDirectoriesCache st' !! dirPath = None
       /\ ((exists d, forall callback,
              observe sync (PacScan._findBaseDirectory w sync (S fuel) dirPath callback st)
              = observe sync (callback (Some d) st'))
           \/ (forall callback,
                 observe sync (PacScan._findBaseDirectory w sync (S fuel) dirPath callback st)
                 = observe sync (Outside OutOfFuel, st'))))
  /\ let dirPath := "/tmp/fixtures/flat/node_modules/foo" in
     let st' :=
       parentPackageDirectoriesCache_set "/tmp/fixtures/flat/node_modules"
         "/tmp/fixtures/flat"
         (record_calls [CallPkgDir dirPath; CallPkgDir "/tmp/fixtures/flat/node_modules"]
            initial) in
     (forall callback,
        PacScan._findBaseDirectory flat_world true (S (String.length dirPath)) dirPath
          callback initial
        = callback (Some "/tmp/fixtures/flat") st')
     /\ parentPackageDirectoriesCache st' !! dirPath = None
     /\ fst (sync flat_world (Some (with_path dirPath true)) initial)
        = Normal (Plain flat_packages)
     /\ parentPackageDirectoriesCache
          (snd (sync flat_world (Some (with_path dirPath true)) initial)) !! dirPath = None.
Proof.
  split; [|repeat split; try intros callback; by vm_compute].
  intros w sync fuel dirPath childDirPath parentDirPath st Hw Hmiss Hchild Hparent.
  pose proof (climb_candidate w fuel dirPath childDirPath st Hmiss Hchild) as Hsome.
  assert (Hkeys : parentPackageDirectoriesCache (climb w (S fuel) dirPath st).2 !! dirPath
                  = None).
  { cbn [climb]. rewrite Hmiss, Hchild, Hparent, String.eqb_refl.
    pose proof (parentDir_shorter _ _ Hparent) as Hlt.
    pose proof (proj1 (proj1 Hw _ _ Hchild)) as Hle.
    pose proof (climb_cache_keys w Hw fuel parentDirPath
                  (record_calls [CallPkgDir dirPath] st) dirPath ltac:(lia)) as Hk.
    destruct (climb w fuel parentDirPath _) as [[[p|]|] st']; cbn [snd] in *;
      by rewrite Hk. }
  destruct (climb w (S fuel) dirPath st) as [[[d|]|] st'] eqn:Hclimb; [|done|];
    exists st'; (split; [exact Hkeys|]).
  - left. exists d. intros callback. by rewrite findBaseDirectory_observe, Hclimb.
  - right. intros callback. by rewrite findBaseDirectory_observe, Hclimb.
Qed.

(** ** What a scan returns *)

Section Results.

Variable w : World.

Lemma packagesAt_available dirPath :
  packagesAt w (availablePackagePaths w dirPath)
  = map (recordAt w dirPath) (sort (ownPaths w dirPath ++ foundPaths w dirPath)).
Proof. unfold packagesAt, availablePackagePaths. by rewrite map_map. Qed.

(** Both scans, from a state the module can be in, when the base
    directory is [dirPath]. *)
Lemma scans_from_base o st dirPath :
  reachable w st ->
  baseDirectory w (PacScan._parseOptions o) = inr (Some dirPath) ->
  let pkgs := map (recordAt w dirPath) (sort (ownPaths w dirPath ++ foundPaths w dirPath)) in
  (sync w o st).1 = Normal (Plain pkgs)
  /\ (scan w o st).1 = Normal (Promise (Fulfilled pkgs)).
Proof.
  intros Hst Hbase pkgs. apply reachable_coherent in Hst.
  destruct (sync_coherent w o st Hst) as [-> _].
  destruct (scan_coherent w o st Hst) as [-> _].
  unfold scanResult. rewrite Hbase, packagesAt_available. by split.
Qed.

(** Conversely, packages are returned only for a base directory. *)
Lemma scans_have_base o st pkgs :
  reachable w st ->
  (sync w o st).1 = Normal (Plain pkgs)
  \/ (scan w o st).1 = Normal (Promise (Fulfilled pkgs)) ->
  exists dirPath,
    baseDirectory w (PacScan._parseOptions o) = inr (Some dirPath)
    /\ pkgs = map (recordAt w dirPath) (sort (ownPaths w dirPath ++ foundPaths w dirPath)).
Proof.
  intros Hst Hres. apply reachable_coherent in Hst.
  destruct (sync_coherent w o st Hst) as [Hs _].
  destruct (scan_coherent w o st Hst) as [Ha _].
  rewrite Hs, Ha in Hres. unfold scanResult in Hres.
  assert (Hunthrown : forall e, baseDirectory w (PacScan._parseOptions o)
                                <> inl (Normal e)).
  { intros e. unfold baseDirectory.
    destruct (resolvePackage w _) as [[filePath|] [pkg|]]; try done;
      [|by destruct (stat w filePath)].
    destruct (negb _); [done|]. by destruct (outermost w _ _). }
  destruct (baseDirectory w (PacScan._parseOptions o)) as [c|[dirPath|]] eqn:Hbase.
  - destruct c as [v|e|b]; [by destruct (Hunthrown v)| |];
      by destruct Hres as [Hres|Hres].
  - exists dirPath. split; [reflexivity|]. rewrite packagesAt_available in Hres.
    by destruct Hres as [[= <-]|[= <-]].
  - by destruct Hres as [Hres|Hres].
Qed.

End Results.

(** C5: from any state the module can be in, a second scan with the same
    options returns what the first returned, and so does a third one after
    [clearCache]; indeed a scan returns the same from every such state, so
    the caches never show in the result.  What they change is the
    searching: the second scan makes no file system search.  This holds for
    [scan] and for [sync]. *)
Theorem caches_transparent (w : World) (o : option Options) (st : State)
    (Hst : reachable w st) :
  let first := scan w o st in
  let second := scan w o first.2 in
  let third := scan w o (clearCache second.2) in
  let first_sync := sync w o st in
  let second_sync := sync w o first_sync.2 in
  let third_sync := sync w o (clearCache second_sync.2) in
  second.1 = first.1 /\ third.1 = first.1
  /\ second_sync.1 = first_sync.1 /\ third_sync.1 = first_sync.1
  /\ (forall st', reachable w st' ->
        (scan w o st').1 = first.1 /\ (sync w o st').1 = first_sync.1)
  /\ searches second.2 = searches first.2
  /\ searches second_sync.2 = searches first_sync.2.
Proof.
  intros first second third first_sync second_sync third_sync.
  assert (Hall : forall st', reachable w st' ->
    (scan w o st').1 = first.1 /\ (sync w o st').1 = first_sync.1).
  { intros st' Hst'. subst first first_sync.
    apply reachable_coherent in Hst, Hst'.
    destruct (scan_coherent w o st Hst) as [-> _].
    destruct (scan_coherent w o st' Hst') as [-> _].
    destruct (sync_coherent w o st Hst) as [-> _].
    destruct (sync_coherent w o st' Hst') as [-> _]. by split. }
  assert (H1 : reachable w first.2) by by apply reachable_scan.
  assert (H2 : reachable w second.2) by by apply reachable_scan.
  assert (H1s : reachable w first_sync.2) by by apply reachable_sync.
  assert (H2s : reachable w second_sync.2) by by apply reachable_sync.
  repeat split; try (by apply Hall); try (by apply Hall, reachable_clearCache).
  - subst second first. rewrite !scan_state.
    by apply second_scan_searches, reachable_coherent.
  - subst second_sync first_sync. rewrite !sync_state.
    by apply second_scan_searches, reachable_coherent.
Qed.

Lemma caches_transparent_witness :
  let o := Some (with_path "/tmp/fixtures/flat/node_modules/foo/index.js" true) in
  let first := sync flat_world o initial in
  let second := sync flat_world o first.2 in
  let third := sync flat_world o (clearCache second.2) in
  first.1 = Normal (Plain flat_packages) /\ second.1 = first.1 /\ third.1 = first.1.
Proof.
  intros o first second third. split; [by vm_compute|].
  destruct (caches_transparent flat_world o initial (reachable_initial flat_world))
    as (_ & _ & H2 & H3 & _).
  split; [exact H2 | exact H3].
Defined.

Example searches_flat :
  let o := Some (with_path "/tmp/fixtures/flat/node_modules/foo/index.js" true) in
  let first := sync flat_world o initial in
  let second := sync flat_world o first.2 in
  let third := sync flat_world o (clearCache second.2) in
  List.length (searches first.2) = 2 /\ List.length (searches second.2) = 2
  /\ List.length (searches third.2) = 4.
Proof. by vm_compute. Qed.

(** C6: the records a scan returns follow the sorted order of their
    [package.json] paths relative to the base directory; for the fixture
    [flat], scanned from its own file, these are the seven records of
    [@baz/buzz], [@baz/fizz], [@fu/buzz], [@fu/fizz], [bar], [foo] and last
    [flat] itself. *)
Theorem scan_sorted :
  (forall (w : World) (o : option Options) (st : State) (pkgs : list Package),
     reachable w st ->
     (sync w o st).1 = Normal (Plain pkgs)
     \/ (scan w o st).1 = Normal (Promise (Fulfilled pkgs)) ->
     exists dirPath relative,
       baseDirectory w (PacScan._parseOptions o) = inr (Some dirPath)
       /\ StronglySorted String.le relative
       /\ relative ≡ₚ (ownPaths w dirPath ++ foundPaths w dirPath)%list
       /\ pkgs = map (recordAt w dirPath) relative)
  /\ (sync flat_world (Some no_options) initial).1 = Normal (Plain flat_packages)
  /\ (scan flat_world (Some no_options) initial).1
     = Normal (Promise (Fulfilled flat_packages))
  /\ map name flat_packages
     = ["@baz/buzz"; "@baz/fizz"; "@fu/buzz"; "@fu/fizz"; "bar"; "foo"; "flat"]
  /\ map directory flat_packages
     = [ "/tmp/fixtures/flat/node_modules/@baz/buzz";
         "/tmp/fixtures/flat/node_modules/@baz/fizz";
         "/tmp/fixtures/flat/node_modules/@fu/buzz";
         "/tmp/fixtures/flat/node_modules/@fu/fizz";
         "/tmp/fixtures/flat/node_modules/bar";
         "/tmp/fixtures/flat/node_modules/foo";
         "/tmp/fixtures/flat" ].
Proof.
  split; [|repeat split; by vm_compute].
  intros w o st pkgs Hst Hres.
  destruct (scans_have_base w o st pkgs Hst Hres) as (dirPath & Hbase & ->).
  exists dirPath, (sort (ownPaths w dirPath ++ foundPaths w dirPath)).
  split; [exact Hbase|]. split; [apply sort_sorted|].
  split; [apply sort_permutation | reflexivity].
Qed.

Lemma scan_sorted_witness :
  exists relative,
    StronglySorted String.le relative
    /\ relative ≡ₚ (ownPaths flat_world "/tmp/fixtures/flat"
                    ++ foundPaths flat_world "/tmp/fixtures/flat")%list
    /\ flat_packages = map (recordAt flat_world "/tmp/fixtures/flat") relative.
Proof.
  destruct (proj1 scan_sorted flat_world (Some no_options) initial flat_packages
              (reachable_initial flat_world)) as (dirPath & relative & Hbase & Hs & Hp & Hr);
    [left; by vm_compute|].
  assert (dirPath = "/tmp/fixtures/flat") as ->.
  { assert (Hflat : baseDirectory flat_world (PacScan._parseOptions (Some no_options))
                    = inr (Some "/tmp/fixtures/flat")) by by vm_compute.
    rewrite Hflat in Hbase. by injection Hbase. }
  by exists relative.
Defined.

(** C1, as the code has it: when the base directory is a package
    directory, its own record is in the result at the place of
    [package.json] among the sorted relative paths: after the records whose
    paths sort before [package.json] and before the others.  It is the last
    record when every path found starts with [node_modules/]. *)
Theorem own_package_position (w : World) (o : option Options) (st : State)
    (dirPath : string)
    (Hst : reachable w st)
    (Hbase : baseDirectory w (PacScan._parseOptions o) = inr (Some dirPath))
    (Hpkg : pkgDir w dirPath = Some dirPath) :
  exists before after,
    let pkgs := (map (recordAt w dirPath) before
                 ++ recordAt w dirPath "package.json"
                 :: map (recordAt w dirPath) after)%list in
    (sync w o st).1 = Normal (Plain pkgs)
    /\ (scan w o st).1 = Normal (Promise (Fulfilled pkgs))
    /\ Forall (fun p => String.le p "package.json") before
    /\ Forall (String.le "package.json") after
    /\ (before ++ after)%list ≡ₚ foundPaths w dirPath
    /\ ((forall p, p ∈ foundPaths w dirPath -> exists rest, p = "node_modules/" ++ rest) ->
        after = []).
Proof.
  destruct (scans_from_base w o st dirPath Hst Hbase) as [Hs Ha].
  assert (Hown : ownPaths w dirPath = ["package.json"]).
  { unfold ownPaths. rewrite Hpkg. by rewrite bool_decide_eq_true_2. }
  rewrite Hown in Hs, Ha. cbn [app] in Hs, Ha.
  destruct (sorted_split "package.json" (sort ("package.json" :: foundPaths w dirPath)))
    as (before & after & Hsplit & Hbefore & Hafter).
  { apply (elem_of_Permutation_proper _ _ _ (sort_permutation _)). by left. }
  { apply sort_sorted. }
  assert (Hperm : (before ++ after)%list ≡ₚ foundPaths w dirPath).
  { apply (Permutation_cons_inv (a := "package.json")).
    transitivity (sort ("package.json" :: foundPaths w dirPath));
      [|apply sort_permutation].
    rewrite Hsplit. apply Permutation_middle. }
  exists before, after. cbn zeta.
  rewrite Hsplit, map_app in Hs, Ha. cbn [map] in Hs, Ha.
  repeat split; try done.
  intros Hfound. destruct after as [|p after]; [reflexivity|exfalso].
  apply Forall_cons in Hafter as [Hp _].
  destruct (Hfound p) as [rest ->].
  { rewrite <- Hperm. apply elem_of_app. right. by left. }
  by apply node_modules_before_package_json in Hp.
Qed.

Lemma own_package_position_witness :
  exists before,
    (sync flat_world (Some no_options) initial).1
    = Normal (Plain (map (recordAt flat_world "/tmp/fixtures/flat") before
                     ++ [recordAt flat_world "/tmp/fixtures/flat" "package.json"])%list)
    /\ before ≡ₚ foundPaths flat_world "/tmp/fixtures/flat".
Proof.
  destruct (own_package_position flat_world (Some no_options) initial "/tmp/fixtures/flat"
              (reachable_initial flat_world)) as (before & after & Hs & _ & _ & _ & Hp & Hlast);
    [by vm_compute | by vm_compute |].
  assert (after = []) as ->.
  { apply Hlast. intros p Hin. vm_compute in Hin.
    repeat (apply elem_of_cons in Hin as [->|Hin]; [by eexists|]).
    by apply elem_of_nil in Hin. }
  exists before. split; [exact Hs|]. by rewrite app_nil_r in Hp.
Defined.

(** C1, as stated, fails for the fixture [flat]: its base directory is a
    package directory, and the first record of the scan is that of
    [@baz/buzz]; the record of [flat] itself is the last one. *)
Lemma own_package_not_first :
  pkgDir flat_world "/tmp/fixtures/flat" = Some "/tmp/fixtures/flat"
  /\ baseDirectory flat_world (PacScan._parseOptions (Some no_options))
     = inr (Some "/tmp/fixtures/flat")
  /\ exists pkgs,
       (sync flat_world (Some no_options) initial).1 = Normal (Plain pkgs)
       /\ (scan flat_world (Some no_options) initial).1 = Normal (Promise (Fulfilled pkgs))
       /\ head pkgs <> Some (PacScan._getPackage flat_world "/tmp/fixtures/flat")
       /\ last pkgs = Some (PacScan._getPackage flat_world "/tmp/fixtures/flat").
Proof.
  split; [by vm_compute|]. split; [by vm_compute|].
  exists flat_packages. repeat split; by vm_compute.
Qed.

(** ** The paths that [glob] reports *)


























Lemma strip_prefix_app pre : forall s rel,
  strip_prefix pre s = Some rel -> s = pre ++ rel.
Proof.
  induction pre as [|c pre IH]; intros s rel; cbn [strip_prefix].
  - by intros [= ->].
  - destruct s as [|c' s]; [done|].
    destruct (Ascii.eqb_spec c c') as [->|]; [|done].
    intros H. by rewrite (IH _ _ H).
Qed.

(** [glob] on a file system keeps its promise. *)
Lemma world_of_glob_contract (fs : FileSystem) (callers : list Caller) :
  NoDup (fs_manifests fs).*1 -> glob_contract (world_of fs callers).
Proof.
  intros Hnodup pattern o _. cbn [glob world_of]. unfold fs_glob.
  set (g := fun e : string * Manifest =>
              match relative_to (cwd o) e.1 with
              | Some relative => if glob_match pattern relative then Some relative else None
              | None => None
              end).
  assert (Hg : forall e rel, g e = Some rel ->
    glob_match pattern rel = true
    /\ e.1 = (if String.eqb (cwd o) "/" then "/" else cwd o ++ "/") ++ rel).
  { intros e rel. unfold g, relative_to.
    destruct (strip_prefix _ e.1) as [r|] eqn:Hstrip; [|done].
    destruct (glob_match pattern r) eqn:Hmatch; [|done]. intros [= <-].
    split; [done|]. by apply strip_prefix_app. }
  split.
  - induction (fs_manifests fs) as [|e l IH]; [apply NoDup_nil_2|].
    cbn [fmap list_fmap] in Hnodup. apply NoDup_cons in Hnodup as [Hnotin Hnodup].
    cbn [omap list_omap]. destruct (g e) as [rel|] eqn:He; [|by apply IH].
    apply NoDup_cons. split; [|by apply IH].
    intros Hin. apply list_elem_of_omap in Hin as (e' & He' & Hge').
    apply Hnotin. apply list_elem_of_fmap. exists e'. split; [|done].
    destruct (Hg _ _ He) as [_ ->]. by destruct (Hg _ _ Hge') as [_ ->].
  - apply Forall_forall. intros rel Hin.
    apply list_elem_of_omap in Hin as (e & _ & He). by destruct (Hg _ _ He).
Qed.

Example flat_world_glob_contract : glob_contract flat_world.
Proof. apply world_of_glob_contract. apply (bool_decide_unpack _). by vm_compute. Qed.




(** * Further properties of the module *)

(** ** The two entry points *)

Lemma sync_direct (w : World) o st :
  sync w o st = scanDirect w (PacScan._parseOptions o) st.
Proof. exact (scan_direct w true (PacScan._parseOptions o) st). Qed.

Lemma scan_settles (w : World) o st :
  scan w o st
  = (settle (scanDirect w (PacScan._parseOptions o) st).1,
     (scanDirect w (PacScan._parseOptions o) st).2).
Proof.
  unfold scan.
  pose proof (scan_direct w false (PacScan._parseOptions o) st) as H.
  rewrite <- PacScan_scan_settled in H. rewrite H. unfold observe. cbn [fst snd].
  by destruct (scanDirect w (PacScan._parseOptions o) st).1 as [[pkgs|s]|e|b].
Qed.

(** X1: whatever the caches hold, the asynchronous scan settles the way the
    synchronous scan completes -- fulfilled with the packages it returns,
    rejected with the error it throws -- and leaves the same caches and
    the same calls behind.  It always returns a promise: it never throws
    and never returns the packages themselves. *)
Theorem scan_agrees_with_sync (w : World) (o : option Options) (st : State) :
  scan w o st = (settle (sync w o st).1, (sync w o st).2)
  /\ (forall pkgs, (sync w o st).1 = Normal (Plain pkgs) ->
        (scan w o st).1 = Normal (Promise (Fulfilled pkgs)))
  /\ (forall e, (sync w o st).1 = Throw e ->
        (scan w o st).1 = Normal (Promise (Rejected e)))
  /\ (forall e, (scan w o st).1 <> Throw e)
  /\ (forall pkgs, (scan w o st).1 <> Normal (Plain pkgs)).
Proof.
  rewrite scan_settles, sync_direct. cbn [fst snd].
  split; [reflexivity|].
  destruct (scanDirect w (PacScan._parseOptions o) st).1 as [[pkgs|s]|e|b] eqn:Hc;
    repeat split; intros; simplify_eq/=; try done.
  (* the synchronous scan never returns a promise *)
  all: unfold scanDirect in Hc;
    destruct (resolveBase w (PacScan._parseOptions o) st) as [[c|[d|]] st1];
    cbn [fst] in Hc; try done.
Qed.

(** ** Errors *)

Lemma resolveBase_throws (w : World) o st e :
  (resolveBase w o st).1 = inl (Throw e)
  <-> (e = MissingSourceFile /\ (resolvePackage w o).1 = None)
      \/ (exists filePath code,
            resolvePackage w o = (Some filePath, None)
            /\ stat w filePath = inl code
            /\ e = SystemError code "stat" filePath).
Proof.
  unfold resolveBase.
  destruct (resolvePackage w o) as [[filePath|] [pkg|]]; cbn [fst].
  - split; [|by intros [(_ & ?)|(? & ? & ? & _)]].
    destruct (negb (includeParents o)); [done|].
    by destruct (climb w _ _ _) as [[[d|]|] st1].
  - destruct (stat w filePath) as [code|isDirectory] eqn:Hstat.
    + split.
      * intros [= <-]. right. by exists filePath, code.
      * intros [(_ & ?)|(f & c & [= <-] & Hc & ->)]; [done|].
        rewrite Hstat in Hc. by injection Hc as ->.
    + split; [done|]. intros [(_ & ?)|(f & c & [= <-] & Hc & _)]; [done|].
      by rewrite Hstat in Hc.
  - split; [intros [= <-]; by left | by intros [(-> & _)|(? & ? & ? & _)]].
  - split; [intros [= <-]; by left | by intros [(-> & _)|(? & ? & ? & _)]].
Qed.

Lemma resolvePackage_file (w : World) o :
  (resolvePackage w o).1 = None <-> path o = None /\ callerFile w o = None.
Proof.
  unfold resolvePackage, callerFile. destruct (path o) as [filePath|].
  - split; [done | by intros (? & _)].
  - destruct (head _) as [[filePath pkg]|]; cbn [fst mbind option_bind file].
    + split; [by intros -> | by intros [_ ->]].
    + by split.
Qed.

Lemma scanDirect_throws (w : World) o st e :
  (scanDirect w o st).1 = Throw e
  <-> (e = MissingSourceFile /\ path o = None /\ callerFile w o = None)
      \/ (exists filePath code,
            resolvePackage w o = (Some filePath, None)
            /\ stat w filePath = inl code
            /\ e = SystemError code "stat" filePath).
Proof.
  rewrite <- resolvePackage_file, <- (resolveBase_throws w o st e). unfold scanDirect.
  destruct (resolveBase w o st) as [[c|[d|]] st1]; cbn [fst];
    [| split; intros H; discriminate H | split; intros H; discriminate H].
  split; [by intros -> | by intros [= ->]].
Qed.

(** The synchronous scan never returns a promise. *)
Lemma scanDirect_plain_result (w : World) o st s :
  (scanDirect w o st).1 <> Normal (Promise s).
Proof.
  unfold scanDirect.
  destruct (resolveBase w o st) as [[c|[d|]] st1] eqn:Hb; cbn [fst]; try done.
  intros ->. unfold resolveBase in Hb.
  destruct (resolvePackage w o) as [[filePath|] [pkg|]]; try done.
  - destruct (negb _); [done|]. by destruct (climb w _ _ _) as [[[d|]|] st2].
  - by destruct (stat w filePath).
Qed.

(** X2: whatever the caches hold, a scan fails with the error [Could not
    resolve base directory as file was missing] exactly when the [path]
    option is missing and the first caller is missing or has no file: the
    synchronous scan throws it, the asynchronous one rejects with it.  When
    a file path is known, no package owns it and [fs.stat] fails for it,
    the scan fails with the error of [fs.stat]. *)
Theorem scan_fails_iff (w : World) (o : option Options) (st : State) :
  ((sync w o st).1 = Throw (Error "Could not resolve base directory as file was missing")
   <-> path (PacScan._parseOptions o) = None
       /\ callerFile w (PacScan._parseOptions o) = None)
  /\ ((scan w o st).1
      = Normal (Promise (Rejected
          (Error "Could not resolve base directory as file was missing")))
      <-> path (PacScan._parseOptions o) = None
          /\ callerFile w (PacScan._parseOptions o) = None)
  /\ (forall filePath code,
        resolvePackage w (PacScan._parseOptions o) = (Some filePath, None) ->
        stat w filePath = inl code ->
        (sync w o st).1 = Throw (SystemError code "stat" filePath)
        /\ (scan w o st).1
           = Normal (Promise (Rejected (SystemError code "stat" filePath)))).
Proof.
  rewrite scan_settles, sync_direct. cbn [fst].
  assert (Hmissing :
    (scanDirect w (PacScan._parseOptions o) st).1 = Throw MissingSourceFile
    <-> path (PacScan._parseOptions o) = None
        /\ callerFile w (PacScan._parseOptions o) = None).
  { rewrite scanDirect_throws. split.
    - by intros [(_ & ?)|(? & ? & _ & _ & ?)].
    - intros H. by left. }
  assert (Hstat : forall filePath code,
    resolvePackage w (PacScan._parseOptions o) = (Some filePath, None) ->
    stat w filePath = inl code ->
    (scanDirect w (PacScan._parseOptions o) st).1
    = Throw (SystemError code "stat" filePath)).
  { intros filePath code Hres Hcode. apply scanDirect_throws. right.
    by exists filePath, code. }
  split; [exact Hmissing|]. split.
  - rewrite <- Hmissing.
    pose proof (scanDirect_plain_result w (PacScan._parseOptions o) st) as Hplain.
    destruct (scanDirect w (PacScan._parseOptions o) st).1 as [[pkgs|s]|e'|b];
      cbn [settle]; try (split; [done|done]).
    + by destruct (Hplain s).
    + split; intros [= ->]; reflexivity.
  - intros filePath code Hres Hcode. by rewrite (Hstat filePath code Hres Hcode).
Qed.

Example fileless_caller_fails :
  (sync fileless_world None initial).1 = Throw MissingSourceFile
  /\ (scan fileless_world None initial).1 = Normal (Promise (Rejected MissingSourceFile))
  /\ (forall p b,
        (sync fileless_world (Some (with_path p b)) initial).1 <> Throw MissingSourceFile).
Proof.
  split; [by vm_compute|]. split; [by vm_compute|].
  intros p b H. rewrite sync_direct in H.
  by apply scanDirect_throws in H as [(_ & ? & _)|(? & ? & _ & _ & ?)].
Qed.

(** ** The collaborator calls of a scan *)

Section Logged.

Variables (w : World) (f : Call -> bool).
Hypothesis Hf : forall p, f (CallPkgDir p) = false.

Lemma logged_record_calls cs st :
  logged f (record_calls cs st) = (List.filter f (rev cs) ++ logged f st)%list.
Proof. unfold logged. cbn [calls record_calls]. apply List.filter_app. Qed.

Lemma climb_logged fuel : forall dirPath st,
  logged f (climb w fuel dirPath st).2 = logged f st.
Proof.
  induction fuel as [|fuel IH]; intros dirPath st; [reflexivity|].
  assert (Hcall : logged f (record_calls [CallPkgDir dirPath] st) = logged f st).
  { rewrite logged_record_calls. cbn. by rewrite Hf. }
  cbn [climb]. destruct (parentPackageDirectoriesCache st !! dirPath); [reflexivity|].
  destruct (pkgDir w dirPath) as [childDirPath|]; [|exact Hcall].
  destruct (PacScan.parentDir childDirPath) as [parentDirPath parentDirName].
  destruct (String.eqb parentDirName "node_modules"); [|exact Hcall].
  specialize (IH parentDirPath (record_calls [CallPkgDir dirPath] st)).
  destruct (climb w fuel parentDirPath _) as [[[p|]|] st']; cbn [snd] in *;
    by rewrite IH.
Qed.

Lemma resolveBase_logged o st :
  logged f (resolveBase w o st).2
  = (List.filter f (fallback_stats w o)
     ++ List.filter f (resolvePackage_calls o) ++ logged f st)%list.
Proof.
  assert (Hcalls : logged f (record_calls (resolvePackage_calls o) st)
                   = (List.filter f (resolvePackage_calls o) ++ logged f st)%list).
  { rewrite logged_record_calls. unfold resolvePackage_calls.
    by destruct (path o). }
  unfold resolveBase, fallback_stats.
  destruct (resolvePackage w o) as [[filePath|] [pkg|]]; cbn [fst snd];
    try exact Hcalls.
  - destruct (negb (includeParents o)); [exact Hcalls|].
    pose proof (climb_logged (S (String.length (directory pkg))) (directory pkg)
                  (record_calls (resolvePackage_calls o) st)) as Hclimb.
    destruct (climb w _ (directory pkg) _) as [[d|] st']; cbn [snd] in *;
      by rewrite Hclimb.
  - by rewrite logged_record_calls, Hcalls.
Qed.

Lemma enumerate_logged dirPath st :
  logged f (enumerate w dirPath st).2
  = (List.filter f (new_searches st dirPath) ++ logged f st)%list.
Proof.
  unfold enumerate, new_searches.
  destruct (availablePackagesCache st !! dirPath); [reflexivity|].
  cbn [snd]. change (logged f (availablePackagesCache_set ?k ?v ?s)) with (logged f s).
  rewrite !logged_record_calls. cbn [rev app List.filter]. by rewrite Hf.
Qed.

End Logged.

Lemma fallback_stats_filter (w : World) o :
  List.filter is_stat (fallback_stats w o) = fallback_stats w o
  /\ List.filter is_caller_lookup (fallback_stats w o) = []
  /\ List.filter is_search (fallback_stats w o) = [].
Proof. unfold fallback_stats. by destruct (resolvePackage w o) as [[filePath|] [pkg|]]. Qed.

Lemma new_searches_filter st dirPath :
  List.filter is_search (new_searches st dirPath) = new_searches st dirPath
  /\ List.filter is_caller_lookup (new_searches st dirPath) = []
  /\ List.filter is_stat (new_searches st dirPath) = [].
Proof. unfold new_searches. by destruct (availablePackagesCache st !! dirPath). Qed.

(** X3: the calling module is looked up only when the [path] option is
    missing, and then once per scan, whatever the caches hold: with [limit]
    set to 1 whatever limit the options ask for, and with [pacscan] put in
    front of the packages they exclude. *)
Theorem caller_lookups (w : World) (o : option Options) (st : State) :
  let options := PacScan._findCaller_options (PacScan._parseOptions o) in
  let lookups :=
    match path (PacScan._parseOptions o) with
    | Some _ => []
    | None => [CallWhoIsThere options]
    end in
  logged is_caller_lookup (sync w o st).2 = (lookups ++ logged is_caller_lookup st)%list
  /\ logged is_caller_lookup (scan w o st).2 = (lookups ++ logged is_caller_lookup st)%list
  /\ limit options = Some 1
  /\ excludes options
     = Some ("pacscan" :: default [] (knockknock (PacScan._parseOptions o) ≫= excludes)).
Proof.
  intros options lookups.
  assert (Hlog : logged is_caller_lookup (scanDirect w (PacScan._parseOptions o) st).2
                 = (lookups ++ logged is_caller_lookup st)%list).
  { unfold scanDirect.
    pose proof (resolveBase_logged w is_caller_lookup (fun _ => eq_refl)
                  (PacScan._parseOptions o) st) as Hbase.
    rewrite (proj1 (proj2 (fallback_stats_filter w _))) in Hbase. cbn [app] in Hbase.
    assert (Hlookups : List.filter is_caller_lookup
                         (resolvePackage_calls (PacScan._parseOptions o)) = lookups).
    { unfold resolvePackage_calls, lookups. by destruct (path _). }
    rewrite Hlookups in Hbase.
    destruct (resolveBase w (PacScan._parseOptions o) st) as [[c|[d|]] st1];
      cbn [snd] in *; try exact Hbase.
    rewrite (enumerate_logged w is_caller_lookup (fun _ => eq_refl)), Hbase.
    by rewrite (proj1 (proj2 (new_searches_filter st1 d))). }
  rewrite scan_settles, sync_direct. cbn [snd].
  split; [exact Hlog|]. split; [exact Hlog|].
  subst options. unfold PacScan._findCaller_options.
  destruct (knockknock (PacScan._parseOptions o)) as [k|]; cbn; [|by split].
  by destruct (excludes k).
Qed.

(** X4: [fs.stat] is asked only when a file path is known and no package
    owns it, and then once, for that path. *)
Theorem stat_calls (w : World) (o : option Options) (st : State) :
  let stats :=
    match resolvePackage w (PacScan._parseOptions o) with
    | (Some filePath, None) => [CallStat filePath]
    | _ => []
    end in
  logged is_stat (sync w o st).2 = (stats ++ logged is_stat st)%list
  /\ logged is_stat (scan w o st).2 = (stats ++ logged is_stat st)%list.
Proof.
  intros stats. change stats with (fallback_stats w (PacScan._parseOptions o)).
  assert (Hlog : logged is_stat (scanDirect w (PacScan._parseOptions o) st).2
                 = (fallback_stats w (PacScan._parseOptions o) ++ logged is_stat st)%list).
  { unfold scanDirect.
    pose proof (resolveBase_logged w is_stat (fun _ => eq_refl)
                  (PacScan._parseOptions o) st) as Hbase.
    assert (Hnone : List.filter is_stat (resolvePackage_calls (PacScan._parseOptions o))
                    = []).
    { unfold resolvePackage_calls. by destruct (path _). }
    rewrite Hnone, (proj1 (fallback_stats_filter w _)) in Hbase. cbn [app] in Hbase.
    destruct (resolveBase w (PacScan._parseOptions o) st) as [[c|[d|]] st1];
      cbn [snd] in *; try exact Hbase.
    rewrite (enumerate_logged w is_stat (fun _ => eq_refl)), Hbase.
    by rewrite (proj2 (proj2 (new_searches_filter st1 d))). }
  rewrite scan_settles, sync_direct. by split.
Qed.

(** X5: from a state the module can be in, a scan searches the file
    system only when it has a base directory that is not yet in the cache
    of file paths: then it makes two searches, one per pattern, both in the
    base directory with [nodir] and [nosort] set. *)
Theorem search_calls (w : World) (o : option Options) (st : State)
    (Hst : reachable w st) :
  let new :=
    match baseDirectory w (PacScan._parseOptions o) with
    | inr (Some dirPath) =>
        match availablePackagesCache st !! dirPath with
        | Some _ => []
        | None =>
            [ CallGlob "**/node_modules/@*/*/package.json"
                {| cwd := dirPath; nodir := true; nosort := true |};
              CallGlob "**/node_modules/*/package.json"
                {| cwd := dirPath; nodir := true; nosort := true |} ]
        end
    | _ => []
    end in
  searches (sync w o st).2 = (new ++ searches st)%list
  /\ searches (scan w o st).2 = (new ++ searches st)%list.
Proof.
  intros new. apply reachable_coherent in Hst.
  assert (Hlog : searches (scanDirect w (PacScan._parseOptions o) st).2
                 = (new ++ searches st)%list).
  { unfold scanDirect. subst new.
    destruct (resolveBase_coherent w (PacScan._parseOptions o) st Hst) as [<- _].
    destruct (resolveBase_keeps w (PacScan._parseOptions o) st) as [Hcache Hsearch].
    destruct (resolveBase w (PacScan._parseOptions o) st) as [[c|[d|]] st1];
      cbn [fst snd] in *; try exact Hsearch.
    change (searches ?s) with (logged is_search s).
    rewrite (enumerate_logged w is_search (fun _ => eq_refl)).
    rewrite (proj1 (new_searches_filter st1 d)).
    change (logged is_search ?s) with (searches s). rewrite Hsearch.
    unfold new_searches. by rewrite Hcache. }
  rewrite scan_settles, sync_direct. by split.
Qed.

Lemma search_calls_witness :
  searches (sync flat_world (Some no_options) initial).2
  = enumeration_searches "/tmp/fixtures/flat".
Proof.
  rewrite (proj1 (search_calls flat_world (Some no_options) initial
                    (reachable_initial flat_world))).
  by vm_compute.
Defined.


(** ** What a scan does to the caches *)

Section Caches.

Variable w : World.

Lemma climb_grows fuel : forall dirPath st,
  parentPackageDirectoriesCache st ⊆ parentPackageDirectoriesCache (climb w fuel dirPath st).2.
Proof.
  induction fuel as [|fuel IH]; intros dirPath st; [reflexivity|].
  cbn [climb]. destruct (parentPackageDirectoriesCache st !! dirPath) eqn:Hmiss;
    [reflexivity|].
  destruct (pkgDir w dirPath) as [childDirPath|]; [|reflexivity].
  destruct (PacScan.parentDir childDirPath) as [parentDirPath parentDirName].
  destruct (String.eqb parentDirName "node_modules").
  - specialize (IH parentDirPath (record_calls [CallPkgDir dirPath] st)).
    by destruct (climb w fuel parentDirPath _) as [[[p|]|] st'].
  - cbn. by apply insert_subseteq.
Qed.

Lemma resolveBase_grows o st :
  parentPackageDirectoriesCache st ⊆ parentPackageDirectoriesCache (resolveBase w o st).2.
Proof.
  unfold resolveBase.
  destruct (resolvePackage w o) as [[filePath|] [pkg|]]; try reflexivity.
  destruct (negb (includeParents o)); [reflexivity|].
  pose proof (climb_grows (S (String.length (directory pkg))) (directory pkg)
                (record_calls (resolvePackage_calls o) st)) as H.
  by destruct (climb w _ (directory pkg) _) as [[d|] st'].
Qed.

Lemma resolveBase_plain o st :
  includeParents o = false ->
  parentPackageDirectoriesCache (resolveBase w o st).2 = parentPackageDirectoriesCache st.
Proof.
  intros Hplain. unfold resolveBase. rewrite Hplain.
  by destruct (resolvePackage w o) as [[filePath|] [pkg|]].
Qed.

Lemma enumerate_parent dirPath st :
  parentPackageDirectoriesCache (enumerate w dirPath st).2 = parentPackageDirectoriesCache st.
Proof. unfold enumerate. by destruct (availablePackagesCache st !! dirPath). Qed.

Lemma enumerate_grows dirPath st :
  availablePackagesCache st ⊆ availablePackagesCache (enumerate w dirPath st).2.
Proof.
  unfold enumerate. destruct (availablePackagesCache st !! dirPath) eqn:Hmiss;
    [reflexivity|]. cbn. by apply insert_subseteq.
Qed.

Lemma scanDirect_grows o st :
  availablePackagesCache st ⊆ availablePackagesCache (scanDirect w o st).2
  /\ parentPackageDirectoriesCache st ⊆ parentPackageDirectoriesCache (scanDirect w o st).2.
Proof.
  unfold scanDirect.
  destruct (resolveBase_keeps w o st) as [Ha _].
  pose proof (resolveBase_grows o st) as Hp.
  destruct (resolveBase w o st) as [[c|[d|]] st1]; cbn [snd] in *;
    try (split; [by rewrite Ha | exact Hp]).
  split.
  - rewrite <- Ha. apply enumerate_grows.
  - by rewrite enumerate_parent.
Qed.

Lemma scanDirect_plain o st :
  includeParents o = false ->
  parentPackageDirectoriesCache (scanDirect w o st).2 = parentPackageDirectoriesCache st.
Proof.
  intros Hplain. unfold scanDirect.
  pose proof (resolveBase_plain o st Hplain) as Hp.
  destruct (resolveBase w o st) as [[c|[d|]] st1]; cbn [snd] in *; try exact Hp.
  by rewrite enumerate_parent.
Qed.

(** The caches alone decide what is computed. *)
Lemma climb_same fuel : forall dirPath st1 st2,
  same_caches st1 st2 ->
  (climb w fuel dirPath st1).1 = (climb w fuel dirPath st2).1
  /\ same_caches (climb w fuel dirPath st1).2 (climb w fuel dirPath st2).2.
Proof.
  induction fuel as [|fuel IH]; intros dirPath st1 st2 Hsame; [by split|].
  cbn [climb]. destruct Hsame as [Ha Hp]. rewrite Hp.
  destruct (parentPackageDirectoriesCache st2 !! dirPath); [by split|].
  destruct (pkgDir w dirPath) as [childDirPath|]; [|by split].
  destruct (PacScan.parentDir childDirPath) as [parentDirPath parentDirName].
  destruct (String.eqb parentDirName "node_modules").
  - destruct (IH parentDirPath (record_calls [CallPkgDir dirPath] st1)
                (record_calls [CallPkgDir dirPath] st2)) as [Hv Hs]; [by split|].
    destruct (climb w fuel parentDirPath (record_calls _ st1)) as [[[p1|]|] s1],
      (climb w fuel parentDirPath (record_calls _ st2)) as [[[p2|]|] s2];
      by simplify_eq/=.
  - split; [reflexivity|]. split; cbn; [exact Ha | by rewrite Hp].
Qed.

Lemma scanDirect_same o st1 st2 :
  same_caches st1 st2 ->
  (scanDirect w o st1).1 = (scanDirect w o st2).1
  /\ same_caches (scanDirect w o st1).2 (scanDirect w o st2).2.
Proof.
  intros Hsame.
  assert (Hbase : (resolveBase w o st1).1 = (resolveBase w o st2).1
                  /\ same_caches (resolveBase w o st1).2 (resolveBase w o st2).2).
  { unfold resolveBase.
    destruct (resolvePackage w o) as [[filePath|] [pkg|]]; try by split.
    destruct (negb (includeParents o)); [by split|].
    destruct (climb_same (S (String.length (directory pkg))) (directory pkg)
                (record_calls (resolvePackage_calls o) st1)
                (record_calls (resolvePackage_calls o) st2)) as [Hv Hs]; [exact Hsame|].
    destruct (climb w _ _ (record_calls _ st1)) as [[d1|] s1],
      (climb w _ _ (record_calls _ st2)) as [[d2|] s2]; by simplify_eq/=. }
  unfold scanDirect. destruct Hbase as [Hv Hs].
  destruct (resolveBase w o st1) as [[c1|[d1|]] s1],
    (resolveBase w o st2) as [[c2|[d2|]] s2]; simplify_eq/=; try by split.
  unfold enumerate. destruct Hs as [Ha Hp]. rewrite Ha.
  destruct (availablePackagesCache s2 !! d2); [by split|].
  split; [reflexivity|]. split; cbn; [by rewrite Ha | exact Hp].
Qed.

End Caches.

(** X6: a scan never removes or replaces an entry of a cache: what either
    cache held before, it holds afterwards, whatever the caches held. *)
Theorem caches_grow (w : World) (o : option Options) (st : State) :
  availablePackagesCache st ⊆ availablePackagesCache (sync w o st).2
  /\ parentPackageDirectoriesCache st ⊆ parentPackageDirectoriesCache (sync w o st).2
  /\ availablePackagesCache st ⊆ availablePackagesCache (scan w o st).2
  /\ parentPackageDirectoriesCache st ⊆ parentPackageDirectoriesCache (scan w o st).2.
Proof.
  rewrite scan_settles, sync_direct. cbn [snd].
  destruct (scanDirect_grows w (PacScan._parseOptions o) st) as [Ha Hp].
  by repeat split.
Qed.

(** X7: without [includeParents] a scan leaves the cache of parent
    directories as it is. *)
Theorem plain_scan_keeps_parent_cache (w : World) (o : option Options) (st : State)
    (Hplain : includeParents (PacScan._parseOptions o) = false) :
  parentPackageDirectoriesCache (sync w o st).2 = parentPackageDirectoriesCache st
  /\ parentPackageDirectoriesCache (scan w o st).2 = parentPackageDirectoriesCache st.
Proof.
  rewrite scan_settles, sync_direct. cbn [snd].
  split; by apply scanDirect_plain.
Qed.

Lemma plain_scan_keeps_parent_cache_witness :
  parentPackageDirectoriesCache
    (sync flat_world (Some (with_path "/tmp/fixtures/flat/node_modules/foo" false)) initial).2
  = ∅.
Proof.
  apply (proj1 (plain_scan_keeps_parent_cache flat_world
                  (Some (with_path "/tmp/fixtures/flat/node_modules/foo" false)) initial
                  eq_refl)).
Defined.

Lemma resolveBase_unreturned (w : World) o st v :
  (resolveBase w o st).1 <> inl (Normal v).
Proof.
  unfold resolveBase.
  destruct (resolvePackage w o) as [[filePath|] [pkg|]]; cbn [fst]; try done.
  - destruct (negb _); [done|]. by destruct (climb w _ _ _) as [[[d|]|] st2].
  - by destruct (stat w filePath).
Qed.

(** The base directory that the synchronous [_resolveBaseDirectory] passes
    to every callback is the one [resolveBase] computes. *)
Lemma resolveBase_passed (w : World) o st st1 dirPath :
  (forall callback,
     PacScan._resolveBaseDirectory w true o callback st = callback (Some dirPath) st1) ->
  (resolveBase w o st).1 = inr (Some dirPath).
Proof.
  intros Hbase. specialize (Hbase show_directory).
  pose proof (resolveBaseDirectory_observe w true o show_directory st) as Hobs.
  cbn [observe] in Hobs. rewrite Hbase in Hobs.
  pose proof (resolveBase_unreturned w o st) as Hnot.
  destruct (resolveBase w o st) as [[c|d] st']; cbn [fst] in *.
  - injection Hobs as <- _. by destruct (Hnot (Plain [ {| directory := dirPath;
      main := None; name := ""; version := "" |} ])).
  - destruct d as [d|]; by simplify_eq/=.
Qed.

(** X8: a scan trusts the cache of file paths.  When the directory that
    [_resolveBaseDirectory] passes on as the base directory has an entry,
    the records are read for exactly the cached paths, nothing is searched
    and the cache of file paths stays as it is -- also when the entry is
    out of date.  (With [includeParents] the climb may still add to the
    cache of parent directories.) *)
Theorem cached_paths_are_trusted (w : World) (o : option Options) (st st1 : State)
    (dirPath : string) (cached : list string)
    (Hbase : forall callback,
       PacScan._resolveBaseDirectory w true (PacScan._parseOptions o) callback st
       = callback (Some dirPath) st1)
    (Hcached : availablePackagesCache st !! dirPath = Some cached) :
  let pkgs := map (fun p => PacScan._getPackage w (path.dirname p)) cached in
  (sync w o st).1 = Normal (Plain pkgs)
  /\ (scan w o st).1 = Normal (Promise (Fulfilled pkgs))
  /\ searches (sync w o st).2 = searches st
  /\ searches (scan w o st).2 = searches st
  /\ availablePackagesCache (sync w o st).2 = availablePackagesCache st
  /\ availablePackagesCache (scan w o st).2 = availablePackagesCache st.
Proof.
  intros pkgs. rewrite scan_settles, sync_direct. cbn [fst snd].
  apply resolveBase_passed in Hbase.
  destruct (resolveBase_keeps w (PacScan._parseOptions o) st) as [Hcache Hsearches].
  unfold scanDirect.
  destruct (resolveBase w (PacScan._parseOptions o) st) as [r st2].
  cbn [fst snd] in Hbase, Hcache, Hsearches. subst r.
  unfold enumerate. rewrite Hcache, Hcached. cbn [fst snd settle].
  by rewrite Hcache, Hsearches.
Qed.

Lemma cached_paths_are_trusted_witness :
  let foo := {| directory := "/tmp/fixtures/flat/node_modules/foo";
                main := Some "/tmp/fixtures/flat/node_modules/foo/index.js";
                name := "foo"; version := "1.1.0" |} in
  (sync flat_world (Some (with_path "/tmp/fixtures/flat/index.js" false)) stale).1
  = Normal (Plain [foo])
  /\ (sync flat_world (Some (with_path "/tmp/fixtures/flat/node_modules/foo/index.js" true))
        stale).1
     = Normal (Plain [foo])
  /\ (sync flat_world (Some (with_path "/tmp/fixtures/flat/index.js" false)) initial).1
     = Normal (Plain flat_packages).
Proof.
  intros foo.
  assert (Hbase1 : forall callback,
    PacScan._resolveBaseDirectory flat_world true
      (PacScan._parseOptions (Some (with_path "/tmp/fixtures/flat/index.js" false)))
      callback stale
    = callback (Some "/tmp/fixtures/flat")
        (record_calls [CallPkgDir "/tmp/fixtures/flat/index.js"] stale))
    by (intros callback; vm_compute; reflexivity).
  assert (Hbase2 : forall callback,
    PacScan._resolveBaseDirectory flat_world true
      (PacScan._parseOptions
         (Some (with_path "/tmp/fixtures/flat/node_modules/foo/index.js" true)))
      callback stale
    = callback (Some "/tmp/fixtures/flat")
        (parentPackageDirectoriesCache_set "/tmp/fixtures/flat/node_modules"
           "/tmp/fixtures/flat"
           (record_calls [CallPkgDir "/tmp/fixtures/flat/node_modules/foo/index.js";
                          CallPkgDir "/tmp/fixtures/flat/node_modules/foo";
                          CallPkgDir "/tmp/fixtures/flat/node_modules"] stale)))
    by (intros callback; vm_compute; reflexivity).
  assert (Hcached : availablePackagesCache stale !! "/tmp/fixtures/flat"
                    = Some [ "/tmp/fixtures/flat/node_modules/foo/package.json" ])
    by (vm_compute; reflexivity).
  split; [|split; [|vm_compute; reflexivity]].
  - rewrite (proj1 (cached_paths_are_trusted flat_world _ stale _ _ _ Hbase1 Hcached)).
    vm_compute. reflexivity.
  - rewrite (proj1 (cached_paths_are_trusted flat_world _ stale _ _ _ Hbase2 Hcached)).
    vm_compute. reflexivity.
Defined.

(** X9: [clearCache] puts the module back to its start, whatever the
    caches held, out of date or not: the next scan returns what a scan from
    empty caches returns, and fills the caches as that one does. *)
Theorem clearCache_resets (w : World) (o : option Options) (st : State) :
  (sync w o (clearCache st)).1 = (sync w o initial).1
  /\ same_caches (sync w o (clearCache st)).2 (sync w o initial).2
  /\ (scan w o (clearCache st)).1 = (scan w o initial).1
  /\ same_caches (scan w o (clearCache st)).2 (scan w o initial).2
  /\ searches (sync w o (clearCache st)).2
     = (searches (sync w o initial).2 ++ searches st)%list.
Proof.
  rewrite !scan_settles, !sync_direct. cbn [fst snd].
  destruct (scanDirect_same w (PacScan._parseOptions o) (clearCache st) initial)
    as [Hv Hs]; [by split|].
  rewrite Hv. repeat split; try apply Hs.
  assert (Hreach : reachable w (clearCache initial)) by apply reachable_clearCache,
    reachable_initial.
  change (clearCache initial) with initial in Hreach.
  assert (Hcoh : coherent w (clearCache st)) by apply coherent_clearCache.
  assert (Hcoh0 : coherent w initial) by apply coherent_initial.
  unfold scanDirect.
  destruct (resolveBase_coherent w (PacScan._parseOptions o) _ Hcoh) as [Hb _].
  destruct (resolveBase_coherent w (PacScan._parseOptions o) _ Hcoh0) as [Hb0 _].
  destruct (resolveBase_keeps w (PacScan._parseOptions o) (clearCache st)) as [Hc Hsr].
  destruct (resolveBase_keeps w (PacScan._parseOptions o) initial) as [Hc0 Hsr0].
  destruct (resolveBase w (PacScan._parseOptions o) (clearCache st)) as [r s1],
    (resolveBase w (PacScan._parseOptions o) initial) as [r0 s0].
  cbn [fst snd] in *. subst r r0.
  destruct (baseDirectory w (PacScan._parseOptions o)) as [c|[d|]]; cbn [snd];
    try (by rewrite Hsr, Hsr0).
  change (searches ?s) with (logged is_search s).
  rewrite !(enumerate_logged w is_search (fun _ => eq_refl)).
  unfold new_searches. rewrite Hc, Hc0. cbn [clearCache initial availablePackagesCache].
  rewrite !lookup_empty.
  change (logged is_search ?s) with (searches s). rewrite Hsr, Hsr0.
  change (searches (clearCache st)) with (searches st).
  change (searches initial) with (@nil Call). by rewrite app_nil_r.
Qed.

(** ** Results in simple cases *)

(** X10: when the searches find nothing below the base directory, a scan
    returns the record of the base directory alone if it is a package
    directory, and no record at all if it is not. *)
Theorem scan_without_dependencies (w : World) (o : option Options) (st : State)
    (dirPath : string)
    (Hst : reachable w st)
    (Hbase : baseDirectory w (PacScan._parseOptions o) = inr (Some dirPath))
    (Hnone : foundPaths w dirPath = []) :
  let pkgs :=
    if bool_decide (pkgDir w dirPath = Some dirPath)
    then [PacScan._getPackage w (path.dirname (path.join [dirPath; "package.json"]))]
    else [] in
  (sync w o st).1 = Normal (Plain pkgs)
  /\ (scan w o st).1 = Normal (Promise (Fulfilled pkgs)).
Proof.
  intros pkgs. destruct (scans_from_base w o st dirPath Hst Hbase) as [-> ->].
  rewrite Hnone, app_nil_r. unfold ownPaths. subst pkgs.
  destruct (pkgDir w dirPath) as [d|] eqn:Hdir.
  - destruct (decide (d = dirPath)) as [->|Hne].
    + rewrite !bool_decide_eq_true_2 by done. by split.
    + rewrite !bool_decide_eq_false_2 by congruence. by split.
  - rewrite !bool_decide_eq_false_2 by done. by split.
Qed.

Lemma scan_without_dependencies_witness :
  (sync unpackaged_single_world None initial).1 = Normal (Plain [])
  /\ (sync single_world None initial).1
     = Normal (Plain [ {| directory := "/tmp/fixtures/single";
                          main := Some "/tmp/fixtures/single/index.js";
                          name := "single"; version := "1.0.0" |} ]).
Proof.
  split.
  - apply (proj1 (scan_without_dependencies unpackaged_single_world None initial
                    "/tmp/fixtures/unpackaged-single"
                    (reachable_initial _) eq_refl eq_refl)).
  - apply (proj1 (scan_without_dependencies single_world None initial
                    "/tmp/fixtures/single" (reachable_initial _) eq_refl eq_refl)).
Defined.

(** X11: the caches are shared by the two entry points.  From a state the
    module can be in, an asynchronous scan after a synchronous one with the
    same options searches nothing and is fulfilled with, or rejected with,
    what the synchronous scan returned or threw; and the other way round. *)
Theorem caches_shared_between_modes (w : World) (o : option Options) (st : State)
    (Hst : reachable w st) :
  searches (scan w o (sync w o st).2).2 = searches (sync w o st).2
  /\ (scan w o (sync w o st).2).1 = settle (sync w o st).1
  /\ searches (sync w o (scan w o st).2).2 = searches (scan w o st).2
  /\ settle (sync w o (scan w o st).2).1 = (scan w o st).1.
Proof.
  pose proof (reachable_coherent w st Hst) as Hcoh.
  pose proof (reachable_coherent w _ (reachable_sync w o st Hst)) as Hcoh1.
  pose proof (reachable_coherent w _ (reachable_scan w o st Hst)) as Hcoh2.
  destruct (sync_coherent w o st Hcoh) as [Hs _].
  destruct (scan_coherent w o st Hcoh) as [Ha _].
  destruct (scan_coherent w o _ Hcoh1) as [Ha1 _].
  destruct (sync_coherent w o _ Hcoh2) as [Hs2 _].
  rewrite Ha1, Hs2, Hs, Ha.
  rewrite !scan_state, !sync_state.
  pose proof (second_scan_searches w (PacScan._parseOptions o) st Hcoh) as Hsecond.
  by repeat split.
Qed.

Lemma caches_shared_between_modes_witness :
  let o := Some no_options in
  searches (scan flat_world o (sync flat_world o initial).2).2
  = enumeration_searches "/tmp/fixtures/flat"
  /\ (scan flat_world o (sync flat_world o initial).2).1
     = Normal (Promise (Fulfilled flat_packages)).
Proof.
  intros o.
  destruct (caches_shared_between_modes flat_world o initial (reachable_initial _))
    as (-> & -> & _).
  split; by vm_compute.
Defined.

(** ** Where the climb ends *)

Section Outermost.

Variable w : World.
Hypothesis Hw : well_formed w.

Lemma outermost_none fuel dirPath :
  outermost w fuel dirPath = Some None -> pkgDir w dirPath = None.
Proof.
  destruct fuel as [|fuel]; [done|]. cbn [outermost].
  destruct (pkgDir w dirPath) as [childDirPath|]; [|done].
  destruct (PacScan.parentDir childDirPath) as [parentDirPath parentDirName].
  destruct (String.eqb parentDirName "node_modules"); [|done].
  by destruct (outermost w fuel parentDirPath) as [[p|]|].
Qed.

Lemma outermost_top fuel : forall dirPath d,
  outermost w fuel dirPath = Some (Some d) ->
  climb_top w d /\ String.length d <= String.length dirPath.
Proof.
  induction fuel as [|fuel IH]; intros dirPath d; [done|]. cbn [outermost].
  destruct (pkgDir w dirPath) as [childDirPath|] eqn:Hchild; [|done].
  apply Hw in Hchild as [Hle Hself].
  destruct (PacScan.parentDir childDirPath) as [parentDirPath parentDirName] eqn:Hparent.
  destruct (String.eqb_spec parentDirName "node_modules") as [->|Hname].
  - pose proof (parentDir_shorter _ _ Hparent) as Hlt.
    destruct (outermost w fuel parentDirPath) as [[p|]|] eqn:Hinner; [| |done].
    + intros [= <-]. apply IH in Hinner as [Htop Hlen]. split; [exact Htop|lia].
    + intros [= <-]. apply outermost_none in Hinner.
      split; [|exact Hle]. split; [exact Hself|]. right. by rewrite Hparent.
  - intros [= <-]. split; [|exact Hle]. split; [exact Hself|]. left. by rewrite Hparent.
Qed.

(** From such a directory the climb goes nowhere. *)
Lemma outermost_fixed d :
  climb_top w d -> outermost w (S (String.length d)) d = Some (Some d).
Proof.
  intros [Hself Htop]. cbn [outermost]. rewrite Hself.
  destruct (PacScan.parentDir d) as [parentDirPath parentDirName] eqn:Hparent.
  cbn [fst snd] in Htop.
  destruct (String.eqb_spec parentDirName "node_modules") as [->|Hname]; [|done].
  destruct Htop as [Htop|Hnone]; [done|].
  apply parentDir_shorter in Hparent.
  destruct (String.length d) as [|k]; [lia|]. cbn [outermost]. by rewrite Hnone.
Qed.

(** The base directory of a scan whose file a package owns. *)
Lemma owned_base o filePath pkg :
  resolvePackage w o = (Some filePath, Some pkg) ->
  exists d, baseDirectory w o = inr (Some d)
    /\ pkgDir w d = Some d
    /\ String.length d <= String.length (directory pkg)
    /\ (includeParents o = true -> climb_top w d)
    /\ (includeParents o = false -> d = directory pkg).
Proof.
  intros Hres. pose proof (resolvePackage_directory w Hw o _ _ Hres) as Hself.
  unfold baseDirectory. rewrite Hres.
  destruct (includeParents o); cbn [negb].
  - destruct (outermost_candidate w Hw (S (String.length (directory pkg))) (directory pkg)
                Hself) as [d Hd]; [lia|].
    rewrite Hd. exists d. apply outermost_top in Hd as [Htop Hlen].
    split; [reflexivity|]. split; [apply Htop|]. split; [exact Hlen|].
    split; [by intros _ | done].
  - exists (directory pkg). split; [reflexivity|]. split; [exact Hself|].
    split; [reflexivity|]. split; [done | by intros _].
Qed.

Lemma base_of_path d b :
  pkgDir w d = Some d -> (b = true -> climb_top w d) ->
  baseDirectory w (with_path d b) = inr (Some d).
Proof.
  intros Hself Htop. unfold baseDirectory, resolvePackage. cbn [path with_path].
  rewrite Hself. cbn [fmap option_fmap option_map PacScan._getPackage directory
                      includeParents].
  destruct b; cbn [negb]; [|reflexivity].
  by rewrite (outermost_fixed d (Htop eq_refl)).
Qed.

End Outermost.

(** X12: in a world where [pkg-dir] answers with the path or a directory
    above it, a climb with more fuel than the length of its starting path
    is never cut off.  From a state the module can be in, its callback
    receives [null] exactly when no package encloses the starting
    directory, and otherwise a package directory, no longer than the
    start, that is not installed in the [node_modules] of a package further
    up. *)
Theorem climb_reaches_top (w : World) (fuel : nat) (dirPath : string) (st : State)
    (Hw : well_formed w) (Hst : reachable w st)
    (Hfuel : String.length dirPath < fuel) :
  exists r st',
    (forall sync callback,
       observe sync (PacScan._findBaseDirectory w sync fuel dirPath callback st)
       = observe sync (callback r st'))
    /\ (r = None <-> pkgDir w dirPath = None)
    /\ match r with
       | None => pkgDir w dirPath = None
       | Some d =>
           pkgDir w d = Some d
           /\ String.length d <= String.length dirPath
           /\ ((PacScan.parentDir d).2 <> "node_modules"
               \/ pkgDir w (PacScan.parentDir d).1 = None)
       end.
Proof.
  apply reachable_coherent in Hst.
  destruct (climb_coherent w fuel dirPath st Hst) as [Hv _].
  pose proof (outermost_total w Hw fuel dirPath Hfuel) as Htotal.
  destruct (climb w fuel dirPath st) as [r st'] eqn:Hclimb. cbn [fst] in Hv.
  destruct r as [r|]; [|by rewrite <- Hv in Htotal].
  exists r, st'. split; [|split].
  - intros sync callback. by rewrite findBaseDirectory_observe, Hclimb.
  - symmetry in Hv. split.
    + intros ->. by apply outermost_none in Hv.
    + intros Hnone. destruct fuel as [|fuel]; [lia|].
      cbn [outermost] in Hv. rewrite Hnone in Hv. by injection Hv as <-.
  - destruct r as [d|].
    + symmetry in Hv. apply (outermost_top w Hw) in Hv as [[Hself Htop] Hlen].
      by repeat split.
    + symmetry in Hv. by apply outermost_none in Hv.
Qed.

Lemma climb_reaches_top_witness :
  (exists st',
     forall sync callback,
       observe sync (PacScan._findBaseDirectory flat_world sync 50
                       "/tmp/fixtures/flat/node_modules/@fu/fizz" callback initial)
       = observe sync (callback (Some "/tmp/fixtures/flat") st'))
  /\ (exists st',
        forall sync callback,
          observe sync (PacScan._findBaseDirectory flat_world sync 50
                          "/tmp/fixtures" callback initial)
          = observe sync (callback None st')).
Proof.
  split.
  - destruct (climb_reaches_top flat_world 50 "/tmp/fixtures/flat/node_modules/@fu/fizz"
                initial flat_world_well_formed (reachable_initial _))
      as (r & st' & Hr & _); [vm_compute; lia|].
    exists st'. intros sync callback. rewrite Hr.
    specialize (Hr true show_directory). vm_compute in Hr.
    destruct r as [d|]; by simplify_eq/=.
  - destruct (climb_reaches_top flat_world 50 "/tmp/fixtures"
                initial flat_world_well_formed (reachable_initial _))
      as (r & st' & Hr & Hnull & _); [vm_compute; lia|].
    exists st'. intros sync callback. rewrite Hr.
    assert (Hnone : pkgDir flat_world "/tmp/fixtures" = None) by (vm_compute; reflexivity).
    by rewrite (proj2 Hnull Hnone).
Defined.

(** ** Scans of a package *)

Lemma own_record_in_result (w : World) (dirPath : string) :
  pkgDir w dirPath = Some dirPath ->
  recordAt w dirPath "package.json"
  ∈ map (recordAt w dirPath) (sort (ownPaths w dirPath ++ foundPaths w dirPath)).
Proof.
  intros Hself. apply (list_elem_of_fmap_2 (recordAt w dirPath)).
  apply (elem_of_Permutation_proper _ _ _ (sort_permutation _)).
  unfold ownPaths. rewrite bool_decide_eq_true_2 by done. by left.
Qed.

(** X13: in a world where [pkg-dir] answers with the path or a directory
    above it, a scan whose file a package owns -- the package found for the
    [path] option, or the caller's package -- has a base directory that is
    a package directory; it returns the packages of that directory, and the
    record of the base directory itself is among them.  Without
    [includeParents] the base directory is the directory of the owning
    package. *)
Theorem owned_scan_has_base_package (w : World) (o : option Options) (st : State)
    (filePath : string) (pkg : Package)
    (Hw : well_formed w) (Hst : reachable w st)
    (Howned : resolvePackage w (PacScan._parseOptions o) = (Some filePath, Some pkg)) :
  exists d pkgs,
    baseDirectory w (PacScan._parseOptions o) = inr (Some d)
    /\ pkgs = packagesAt w (availablePackagePaths w d)
    /\ (sync w o st).1 = Normal (Plain pkgs)
    /\ (scan w o st).1 = Normal (Promise (Fulfilled pkgs))
    /\ pkgDir w d = Some d
    /\ PacScan._getPackage w (path.dirname (path.join [d; "package.json"])) ∈ pkgs
    /\ (includeParents (PacScan._parseOptions o) = false -> d = directory pkg).
Proof.
  destruct (owned_base w Hw _ _ _ Howned) as (d & Hbase & Hself & _ & _ & Hplain).
  destruct (scans_from_base w o st d Hst Hbase) as [Hs Ha].
  exists d, (packagesAt w (availablePackagePaths w d)).
  rewrite packagesAt_available.
  split; [exact Hbase|]. split; [reflexivity|].
  split; [exact Hs|]. split; [exact Ha|]. split; [exact Hself|].
  split; [|exact Hplain]. by apply own_record_in_result.
Qed.

Lemma owned_scan_has_base_package_witness :
  exists pkgs,
    baseDirectory flat_world
      (with_path "/tmp/fixtures/flat/node_modules/foo/index.js" true)
    = inr (Some "/tmp/fixtures/flat")
    /\ (sync flat_world (Some (with_path "/tmp/fixtures/flat/node_modules/foo/index.js" true))
          initial).1 = Normal (Plain pkgs)
    /\ PacScan._getPackage flat_world "/tmp/fixtures/flat" ∈ pkgs.
Proof.
  destruct (owned_scan_has_base_package flat_world
              (Some (with_path "/tmp/fixtures/flat/node_modules/foo/index.js" true))
              initial "/tmp/fixtures/flat/node_modules/foo/index.js"
              (PacScan._getPackage flat_world "/tmp/fixtures/flat/node_modules/foo")
              flat_world_well_formed (reachable_initial _))
    as (d & pkgs & Hbase & _ & Hs & _ & _ & Hin & _); [vm_compute; reflexivity|].
  assert (Hown : path.dirname (path.join ["/tmp/fixtures/flat"; "package.json"])
                 = "/tmp/fixtures/flat") by (vm_compute; reflexivity).
  assert (Hd : baseDirectory flat_world
                 (with_path "/tmp/fixtures/flat/node_modules/foo/index.js" true)
               = inr (Some "/tmp/fixtures/flat")) by (vm_compute; reflexivity).
  change (PacScan._parseOptions
            (Some (with_path "/tmp/fixtures/flat/node_modules/foo/index.js" true)))
    with (with_path "/tmp/fixtures/flat/node_modules/foo/index.js" true) in Hbase.
  rewrite Hd in Hbase. injection Hbase as <-. rewrite Hown in Hin.
  exists pkgs. split; [reflexivity|]. by split.
Defined.

(** X14: two scans with the [path] option return the same when [pkg-dir]
    finds the same package directory for the two paths and
    [includeParents] is the same: which file of a package is named makes no
    difference. *)
Theorem same_package_same_scan (w : World) (o1 o2 : Options) (st1 st2 : State)
    (p1 p2 dirPath : string)
    (Hst1 : reachable w st1) (Hst2 : reachable w st2)
    (Hp1 : path o1 = Some p1) (Hp2 : path o2 = Some p2)
    (Hd1 : pkgDir w p1 = Some dirPath) (Hd2 : pkgDir w p2 = Some dirPath)
    (Hparents : includeParents o1 = includeParents o2) :
  (sync w (Some o1) st1).1 = (sync w (Some o2) st2).1
  /\ (scan w (Some o1) st1).1 = (scan w (Some o2) st2).1.
Proof.
  apply reachable_coherent in Hst1, Hst2.
  destruct (sync_coherent w (Some o1) st1 Hst1) as [-> _].
  destruct (sync_coherent w (Some o2) st2 Hst2) as [-> _].
  destruct (scan_coherent w (Some o1) st1 Hst1) as [-> _].
  destruct (scan_coherent w (Some o2) st2 Hst2) as [-> _].
  rewrite !parseOptions_Some.
  assert (Hsame : scanResult w o1 = scanResult w o2).
  { unfold scanResult, baseDirectory, resolvePackage.
    by rewrite Hp1, Hp2, Hd1, Hd2, Hparents. }
  by rewrite Hsame.
Qed.

Lemma same_package_same_scan_witness :
  (sync flat_world (Some (with_path "/tmp/fixtures/flat/lib/util.js" false)) initial).1
  = (sync flat_world (Some (with_path "/tmp/fixtures/flat" false)) initial).1.
Proof.
  refine (proj1 (same_package_same_scan flat_world
                   (with_path "/tmp/fixtures/flat/lib/util.js" false)
                   (with_path "/tmp/fixtures/flat" false) initial initial
                   "/tmp/fixtures/flat/lib/util.js" "/tmp/fixtures/flat" "/tmp/fixtures/flat"
                   (reachable_initial _) (reachable_initial _) _ _ _ _ _));
    by vm_compute.
Defined.

(** X15: in a world where [pkg-dir] answers with the path or a directory
    above it, a scan whose file a package owns can be repeated from its
    base directory: with that directory as [path], and [includeParents] as
    before or switched off, the scan returns the same packages. *)
Theorem rescan_from_base (w : World) (o : option Options) (st st' : State)
    (filePath : string) (pkg : Package) (b : bool)
    (Hw : well_formed w) (Hst : reachable w st) (Hst' : reachable w st')
    (Howned : resolvePackage w (PacScan._parseOptions o) = (Some filePath, Some pkg))
    (Hb : b = includeParents (PacScan._parseOptions o) \/ b = false) :
  exists d,
    baseDirectory w (PacScan._parseOptions o) = inr (Some d)
    /\ (sync w (Some (with_path d b)) st').1 = (sync w o st).1
    /\ (scan w (Some (with_path d b)) st').1 = (scan w o st).1.
Proof.
  destruct (owned_base w Hw _ _ _ Howned) as (d & Hbase & Hself & _ & Htop & _).
  exists d. split; [exact Hbase|].
  assert (Hbase' : baseDirectory w (with_path d b) = inr (Some d)).
  { apply (base_of_path w); [exact Hself|]. intros ->.
    destruct Hb as [Hb|Hb]; [by apply Htop | done]. }
  apply reachable_coherent in Hst, Hst'.
  destruct (sync_coherent w o st Hst) as [-> _].
  destruct (scan_coherent w o st Hst) as [-> _].
  destruct (sync_coherent w (Some (with_path d b)) st' Hst') as [-> _].
  destruct (scan_coherent w (Some (with_path d b)) st' Hst') as [-> _].
  rewrite parseOptions_Some. unfold scanResult. by rewrite Hbase, Hbase'.
Qed.

Lemma rescan_from_base_witness :
  (sync flat_world (Some (with_path "/tmp/fixtures/flat" true)) initial).1
  = Normal (Plain flat_packages).
Proof.
  destruct (rescan_from_base flat_world
              (Some (with_path "/tmp/fixtures/flat/node_modules/bar/index" true))
              initial initial "/tmp/fixtures/flat/node_modules/bar/index"
              (PacScan._getPackage flat_world "/tmp/fixtures/flat/node_modules/bar") true
              flat_world_well_formed (reachable_initial _) (reachable_initial _))
    as (d & Hbase & Hs & _); [by vm_compute | by left |].
  assert (Hflat : baseDirectory flat_world (PacScan._parseOptions
      (Some (with_path "/tmp/fixtures/flat/node_modules/bar/index" true)))
    = inr (Some "/tmp/fixtures/flat")) by by vm_compute.
  rewrite Hflat in Hbase. injection Hbase as <-.
  rewrite Hs. by vm_compute.
Defined.

(** ** What the caches hold after a scan *)

(** X16: a climb that stops at once -- the package directory found for the
    start is not below a [node_modules] -- stores that directory for the
    start in the cache of parent directories, and the same climb run again
    passes the stored directory to its callback without asking [pkg-dir]
    and without changing anything. *)
Theorem stopped_climb_is_cached (w : World) (sync : bool) (fuel : nat)
    (dirPath childDirPath : string) (st : State)
    (Hmiss : parentPackageDirectoriesCache st !! dirPath = None)
    (Hchild : pkgDir w dirPath = Some childDirPath)
    (Hstop : (PacScan.parentDir childDirPath).2 <> "node_modules") :
  let st' :=
    parentPackageDirectoriesCache_set dirPath childDirPath
      (record_calls [CallPkgDir dirPath] st) in
  (forall callback,
     PacScan._findBaseDirectory w sync (S fuel) dirPath callback st
     = observe sync (callback (Some childDirPath) st'))
  /\ parentPackageDirectoriesCache st' !! dirPath = Some childDirPath
  /\ (forall sync' fuel' callback,
        PacScan._findBaseDirectory w sync' (S fuel') dirPath callback st'
        = callback (Some childDirPath) st').
Proof.
  intros st'. split; [|split].
  - intros callback.
    rewrite (findBaseDirectory_step w sync fuel dirPath childDirPath callback st Hmiss Hchild).
    apply String.eqb_neq in Hstop. by rewrite Hstop.
  - cbn. apply lookup_insert_eq.
  - intros sync' fuel' callback. cbn [PacScan._findBaseDirectory].
    assert (Hhit : parentPackageDirectoriesCache st' !! dirPath = Some childDirPath)
      by (cbn; apply lookup_insert_eq).
    by rewrite Hhit.
Qed.

Lemma stopped_climb_is_cached_witness :
  PacScan._findBaseDirectory flat_world true 1 "/tmp/fixtures/flat/lib" show_directory initial
  = show_directory (Some "/tmp/fixtures/flat")
      (parentPackageDirectoriesCache_set "/tmp/fixtures/flat/lib" "/tmp/fixtures/flat"
         (record_calls [CallPkgDir "/tmp/fixtures/flat/lib"] initial)).
Proof.
  refine (proj1 (stopped_climb_is_cached flat_world true 0 "/tmp/fixtures/flat/lib"
                   "/tmp/fixtures/flat" initial _ _ _) show_directory);
    by vm_compute.
Defined.

(** X17: after a scan that has a base directory, from a state the module
    can be in, the cache of file paths holds for the base directory the
    [package.json] paths of the scan -- the sorted relative paths, joined
    onto the base directory -- and holds for every other directory what it
    held before. *)
Theorem scan_caches_base_paths (w : World) (o : option Options) (st : State)
    (dirPath : string)
    (Hst : reachable w st)
    (Hbase : baseDirectory w (PacScan._parseOptions o) = inr (Some dirPath)) :
  let filePaths :=
    map (fun filePath => path.join [dirPath; filePath])
      (sort (ownPaths w dirPath ++ foundPaths w dirPath)) in
  availablePackagesCache (sync w o st).2 !! dirPath = Some filePaths
  /\ availablePackagesCache (scan w o st).2 !! dirPath = Some filePaths
  /\ (forall d, d <> dirPath ->
        availablePackagesCache (sync w o st).2 !! d = availablePackagesCache st !! d
        /\ availablePackagesCache (scan w o st).2 !! d = availablePackagesCache st !! d)
  /\ (sync w o st).1
     = Normal (Plain (map (fun filePath => PacScan._getPackage w (path.dirname filePath))
                        filePaths)).
Proof.
  intros filePaths. rewrite scan_settles, sync_direct. cbn [fst snd].
  apply reachable_coherent in Hst.
  destruct (resolveBase_coherent w (PacScan._parseOptions o) st Hst) as [Hv Hcoh].
  destruct (resolveBase_keeps w (PacScan._parseOptions o) st) as [Hcache _].
  unfold scanDirect.
  destruct (resolveBase w (PacScan._parseOptions o) st) as [r st1]. cbn [fst snd] in *.
  rewrite Hv, Hbase. cbn [fst snd].
  destruct (enumerate_coherent w dirPath st1 Hcoh) as [Hpaths _].
  pose proof (enumerate_cached w dirPath st1) as Hcached. rewrite Hpaths in Hcached.
  assert (Hother : forall d, d <> dirPath ->
    availablePackagesCache (enumerate w dirPath st1).2 !! d
    = availablePackagesCache st !! d).
  { intros d Hd. rewrite <- Hcache. unfold enumerate.
    destruct (availablePackagesCache st1 !! dirPath); [reflexivity|].
    cbn. by apply lookup_insert_ne. }
  split; [exact Hcached|]. split; [exact Hcached|]. split.
  - intros d Hd. split; by apply Hother.
  - by rewrite Hpaths.
Qed.

Lemma scan_caches_base_paths_witness :
  availablePackagesCache (sync flat_world (Some no_options) initial).2
    !! "/tmp/fixtures/flat"
  = Some [ "/tmp/fixtures/flat/node_modules/@baz/buzz/package.json";
           "/tmp/fixtures/flat/node_modules/@baz/fizz/package.json";
           "/tmp/fixtures/flat/node_modules/@fu/buzz/package.json";
           "/tmp/fixtures/flat/node_modules/@fu/fizz/package.json";
           "/tmp/fixtures/flat/node_modules/bar/package.json";
           "/tmp/fixtures/flat/node_modules/foo/package.json";
           "/tmp/fixtures/flat/package.json" ].
Proof.
  rewrite (proj1 (scan_caches_base_paths flat_world (Some no_options) initial
                    "/tmp/fixtures/flat" (reachable_initial _) eq_refl)).
  by vm_compute.
Defined.

(** ** The options of a scan *)

Lemma scanDirect_with_path (w : World) (o1 o2 : Options) (p : string) (st : State) :
  path o1 = Some p -> path o2 = Some p -> includeParents o1 = includeParents o2 ->
  scanDirect w o1 st = scanDirect w o2 st.
Proof.
  intros H1 H2 Hi.
  unfold scanDirect, resolveBase, resolvePackage, resolvePackage_calls.
  by rewrite H1, H2, Hi.
Qed.

(** X18: under the options made by the test helper [createOptions], the
    caller lookup leaves out [pacscan], [chai] and [mocha], in this order,
    and then the packages the given options left out; it still asks for one
    caller and keeps the given offset.  The helper is not idempotent:
    applied to its own result it adds [chai] and [mocha] again. *)
Theorem createOptions_excludes (o : option Options) :
  let given := (o ≫= knockknock) in
  PacScan._findCaller_options (createOptions o)
  = {| excludes := Some ("pacscan" :: "chai" :: "mocha" :: default [] (given ≫= excludes));
       limit := Some 1;
       offset := given ≫= offset |}
  /\ excludes (PacScan._findCaller_options (createOptions (Some (createOptions o))))
     = Some ("pacscan" :: "chai" :: "mocha" :: "chai" :: "mocha"
               :: default [] (given ≫= excludes))
  /\ path (createOptions o) = o ≫= path
  /\ includeParents (createOptions o) = default false (includeParents <$> o).
Proof.
  destruct o as [[i [[e l f]|] p]|]; by repeat split.
Qed.

(** X19: when a path is given, the options for [knockknock] play no part:
    with any others the scan, of either kind, completes in the same way and
    leaves the same state; so the options made by [createOptions] scan like
    the options they were made from. *)
Theorem knockknock_unused_with_path (w : World) (o : Options) (p : string)
    (k : option KnockknockOptions) (st : State)
    (Hpath : path o = Some p) :
  sync w (Some (with_knockknock k o)) st = sync w (Some o) st
  /\ scan w (Some (with_knockknock k o)) st = scan w (Some o) st
  /\ sync w (Some (createOptions (Some o))) st = sync w (Some o) st
  /\ scan w (Some (createOptions (Some o))) st = scan w (Some o) st.
Proof.
  rewrite !scan_settles, !sync_direct.
  rewrite (scanDirect_with_path w (PacScan._parseOptions (Some (with_knockknock k o)))
             (PacScan._parseOptions (Some o)) p st Hpath Hpath eq_refl).
  rewrite (scanDirect_with_path w (PacScan._parseOptions (Some (createOptions (Some o))))
             (PacScan._parseOptions (Some o)) p st Hpath Hpath eq_refl).
  by repeat split.
Qed.

Lemma knockknock_unused_with_path_witness :
  sync flat_world (Some (createOptions (Some (with_path "/tmp/fixtures/flat/index.js" false))))
    initial
  = sync flat_world (Some (with_path "/tmp/fixtures/flat/index.js" false)) initial.
Proof.
  refine (proj1 (proj2 (proj2 (knockknock_unused_with_path flat_world
            (with_path "/tmp/fixtures/flat/index.js" false) "/tmp/fixtures/flat/index.js"
            None initial _)))).
  reflexivity.
Defined.

(** * The earlier revision *)

Lemma collect_fresh (w : World) (filePaths : list string) :
  forall (next : nat) (packages : list LegacyPacScan.object),
    (forall a, a ∈ packages.*1 -> a < next) ->
    LegacyPacScan.Array_from
      (fold_left (fun '(next, packages) filePath =>
                    let pkg := PacScan._getPackage w (path.dirname filePath) in
                    (S next, LegacyPacScan.Set_add packages
                               (LegacyPacScan.Object_assign next pkg)))
                 filePaths (next, packages)).2
    = (packages.*2 ++ packagesAt w filePaths)%list.
Proof.
  induction filePaths as [|filePath filePaths IH]; intros next packages Hfresh.
  - cbn. by rewrite app_nil_r.
  - cbn [fold_left]. unfold LegacyPacScan.Set_add at 2, LegacyPacScan.Object_assign at 2.
    cbn [fst]. rewrite bool_decide_eq_false_2.
    + rewrite IH.
      * rewrite fmap_app. cbn. by rewrite <- app_assoc.
      * intros a. rewrite fmap_app. cbn. rewrite elem_of_app, list_elem_of_singleton.
        intros [Ha| ->]; [apply Hfresh in Ha|]; lia.
    + intros Hin. apply Hfresh in Hin. lia.
Qed.

Lemma findAvailablePackagePaths_ext (w : World) (sync : bool) (dirPath : string)
    (callback1 callback2 : list string -> M) (st : State) :
  (forall filePaths st', callback1 filePaths st' = callback2 filePaths st') ->
  PacScan._findAvailablePackagePaths w sync dirPath callback1 st
  = PacScan._findAvailablePackagePaths w sync dirPath callback2 st.
Proof.
  intros Hext. unfold PacScan._findAvailablePackagePaths.
  destruct (availablePackagesCache st !! dirPath) as [cached|]; [apply Hext|].
  unfold PacScan._findPackagePathsSync, PacScan._findPackagePaths,
    PacScan._isPackageDirectory, PacScan._findPackageDirectory, Promise_then.
  destruct sync; by rewrite Hext.
Qed.

Lemma collect_all (w : World) (filePaths : list string) :
  LegacyPacScan.Array_from (LegacyPacScan.collect w filePaths).2 = packagesAt w filePaths.
Proof.
  unfold LegacyPacScan.collect. rewrite collect_fresh; [reflexivity|].
  cbn. intros a Ha. by apply elem_of_nil in Ha.
Qed.

Lemma legacy_scanDirectory (w : World) (sync : bool) (dirPath : option string) (st : State) :
  LegacyPacScan.scanDirectory w sync dirPath st = PacScan.scanDirectory w sync dirPath st.
Proof.
  destruct dirPath as [dirPath|]; [|reflexivity].
  unfold LegacyPacScan.scanDirectory, PacScan.scanDirectory.
  apply findAvailablePackagePaths_ext. intros l st0. by rewrite collect_all.
Qed.

(** X20: the set in which the earlier revision gathered the records never
    took anything out: every record added is a new copy, so the array made
    from the set has one record for each path, in the order of the paths --
    what the current revision builds with [map]. *)
Theorem legacy_set_keeps_every_record (w : World) (sync : bool)
    (filePaths : list string) (dirPath : option string) (st : State) :
  LegacyPacScan.Array_from (LegacyPacScan.collect w filePaths).2
  = map (fun filePath => PacScan._getPackage w (path.dirname filePath)) filePaths
  /\ length (LegacyPacScan.collect w filePaths).2 = length filePaths
  /\ LegacyPacScan.scanDirectory w sync dirPath st = PacScan.scanDirectory w sync dirPath st.
Proof.
  split; [apply collect_all|]. split; [|apply legacy_scanDirectory].
  pose proof (f_equal length (collect_all w filePaths)) as Hlen.
  unfold LegacyPacScan.Array_from, packagesAt in Hlen.
  by rewrite length_fmap, length_map in Hlen.
Qed.

Section LegacyRevision.

Variables (w : World) (sync : bool).

(** The climb of the earlier revision passes [outermost] to its callback
    and leaves the caches as they are. *)
Lemma legacy_findBaseDirectory_observe fuel : forall filePath callback st,
  exists st', same_caches st st'
    /\ logged is_stat st' = logged is_stat st
    /\ observe sync (LegacyPacScan._findBaseDirectory w sync fuel filePath callback st)
       = observe sync (match outermost w fuel filePath with
                       | Some d => callback d st'
                       | None => (Outside OutOfFuel, st')
                       end).
Proof.
  induction fuel as [|fuel IH]; intros filePath callback st.
  - exists st. by split.
  - cbn [LegacyPacScan._findBaseDirectory outermost].
    rewrite findPackageDirectory_observe, observe_idempotent.
    destruct (pkgDir w filePath) as [dirPath|].
    + destruct (PacScan.parentDir dirPath) as [parentDirPath parentDirName].
      destruct (String.eqb parentDirName "node_modules").
      * destruct (IH parentDirPath
                    (fun parentPkgDirPath =>
                       callback (Some match parentPkgDirPath with
                                      | Some p => p
                                      | None => dirPath
                                      end))
                    (record_calls [CallPkgDir filePath] st)) as (st' & Hsame & Hlog & Hobs).
        exists st'. split; [exact Hsame|]. split; [exact Hlog|]. rewrite Hobs.
        by destruct (outermost w fuel parentDirPath) as [[p|]|].
      * exists (record_calls [CallPkgDir filePath] st). by split.
    + exists (record_calls [CallPkgDir filePath] st). by split.
Qed.

Lemma legacy_getCallers_observe o callback st :
  LegacyPacScan._getCallers w sync o callback st
  = observe sync (callback (whoIsThere w (PacScan._findCaller_options o))
                    (record_calls [CallWhoIsThere (PacScan._findCaller_options o)] st)).
Proof.
  unfold LegacyPacScan._getCallers. destruct sync; [reflexivity|].
  apply Promise_then_observe.
Qed.

Lemma legacy_resolveBaseDirectory_observe o callback st :
  exists st', same_caches st st'
    /\ logged is_stat st' = logged is_stat st
    /\ observe sync (LegacyPacScan._resolveBaseDirectory w sync o callback st)
       = observe sync (match legacyBaseDirectory w o with
                       | inr d => callback d st'
                       | inl c => (c, st')
                       end).
Proof.
  unfold LegacyPacScan._resolveBaseDirectory, legacyBaseDirectory, resolvePackage.
  destruct (path o) as [filePath|].
  - unfold LegacyPacScan._resolveBaseDirectoryFromPath.
    rewrite findPackageDirectory_observe, observe_idempotent.
    destruct (pkgDir w filePath) as [dirPath|]; cbn [fmap option_fmap option_map].
    + cbn [PacScan._getPackage directory].
      destruct (includeParents o); cbn [negb].
      * destruct (legacy_findBaseDirectory_observe (S (String.length dirPath)) dirPath
                    callback (record_calls [CallPkgDir filePath] st))
          as (st' & Hsame & Hlog & Hobs).
        exists st'. split; [exact Hsame|]. split; [exact Hlog|]. rewrite Hobs.
        by destruct (outermost w _ dirPath) as [d|].
      * exists (record_calls [CallPkgDir filePath] st). by split.
    + exists (record_calls [CallPkgDir filePath] st). by split.
  - unfold LegacyPacScan._resolveBaseDirectoryFromCaller.
    rewrite legacy_getCallers_observe, observe_idempotent.
    set (st0 := record_calls [CallWhoIsThere (PacScan._findCaller_options o)] st).
    destruct (head _) as [[[filePath|] [pkg|]]|]; cbn [file package];
      try (exists st0; by split).
    destruct (includeParents o); cbn [negb]; [|exists st0; by split].
    destruct (legacy_findBaseDirectory_observe (S (String.length (directory pkg)))
                (directory pkg) callback st0) as (st' & Hsame & Hlog & Hobs).
    exists st'. split; [exact Hsame|]. split; [exact Hlog|]. rewrite Hobs.
    by destruct (outermost w _ (directory pkg)) as [d|].
Qed.

Lemma legacy_scan_coherent o st :
  coherent w st ->
  exists st', coherent w st'
    /\ parentPackageDirectoriesCache st' = parentPackageDirectoriesCache st
    /\ logged is_stat st' = logged is_stat st
    /\ observe sync (LegacyPacScan.scan w sync o st)
       = observe sync (legacyScanResult w o, st').
Proof.
  intros Hst. unfold LegacyPacScan.scan, legacyScanResult.
  destruct (legacy_resolveBaseDirectory_observe o (LegacyPacScan.scanDirectory w sync) st)
    as (st1 & [Ha Hp] & Hlog & Hobs).
  rewrite Hobs.
  assert (Hst1 : coherent w st1).
  { destruct Hst as [H1 H2]. split; intros d v; rewrite <- ?Ha, <- ?Hp; auto. }
  destruct (legacyBaseDirectory w o) as [c|[dirPath|]]; try by exists st1.
  rewrite legacy_scanDirectory. unfold PacScan.scanDirectory.
  rewrite findAvailablePackagePaths_observe.
  destruct (enumerate_coherent w dirPath st1 Hst1) as [Hpaths Hcoh].
  exists (enumerate w dirPath st1).2. split; [exact Hcoh|]. split; [|split].
  - by rewrite enumerate_parent.
  - rewrite (enumerate_logged w is_stat (fun _ => eq_refl)), Hlog.
    by rewrite (proj2 (proj2 (new_searches_filter st1 dirPath))).
  - by rewrite Hpaths.
Qed.

Lemma legacyBaseDirectory_agrees o :
  unowned_start w o = false -> legacyBaseDirectory w o = baseDirectory w o.
Proof.
  unfold unowned_start, legacyBaseDirectory, baseDirectory.
  destruct (resolvePackage w o) as [[filePath|] [pkg|]]; try reflexivity.
  intros Hfile. apply negb_false_iff, bool_decide_eq_true in Hfile. by rewrite Hfile.
Qed.

End LegacyRevision.

(** An asynchronous scan of the earlier revision goes through a promise. *)
Lemma legacy_scan_settled (w : World) o st :
  LegacyPacScan.scan w false o st = observe false (LegacyPacScan.scan w false o st).
Proof.
  unfold LegacyPacScan.scan, LegacyPacScan._resolveBaseDirectory.
  destruct (path o) as [filePath|].
  - unfold LegacyPacScan._resolveBaseDirectoryFromPath.
    by rewrite (findPackageDirectory_observe w false), observe_idempotent.
  - unfold LegacyPacScan._resolveBaseDirectoryFromCaller.
    by rewrite (legacy_getCallers_observe w false), observe_idempotent.
Qed.

Lemma legacy_sync_coherent (w : World) o st :
  coherent w st ->
  (Legacy.scanSync w o st).1 = legacyScanResult w (PacScan._parseOptions o)
  /\ parentPackageDirectoriesCache (Legacy.scanSync w o st).2
     = parentPackageDirectoriesCache st
  /\ logged is_stat (Legacy.scanSync w o st).2 = logged is_stat st
  /\ coherent w (Legacy.scanSync w o st).2.
Proof.
  intros Hst. unfold Legacy.scanSync.
  destruct (legacy_scan_coherent w true (PacScan._parseOptions o) st Hst)
    as (st' & Hc & Hp & Hl & Hr).
  simpl in Hr. by rewrite Hr.
Qed.

Lemma legacy_async_coherent (w : World) o st :
  coherent w st ->
  (Legacy.scan w o st).1 = settle (legacyScanResult w (PacScan._parseOptions o))
  /\ parentPackageDirectoriesCache (Legacy.scan w o st).2
     = parentPackageDirectoriesCache st
  /\ coherent w (Legacy.scan w o st).2.
Proof.
  intros Hst. unfold Legacy.scan.
  destruct (legacy_scan_coherent w false (PacScan._parseOptions o) st Hst)
    as (st' & Hc & Hp & Hl & Hr).
  rewrite <- legacy_scan_settled in Hr. rewrite Hr. simpl.
  split; [|by split].
  by destruct (legacyScanResult w (PacScan._parseOptions o)) as [[pkgs|s]|e|b].
Qed.

(** X21: from caches that hold what the code would compute, the earlier
    revision returns what the current revision returns, synchronously and
    asynchronously, unless the scan starts from a path that no package owns
    and that [fs.stat] reports as a directory or fails for; it never writes
    to the cache of parent directories, and it leaves the caches holding
    what the code would compute. *)
Theorem legacy_scan_agrees (w : World) (o : option Options) (st : State)
    (Hst : coherent w st)
    (Hstart : unowned_start w (PacScan._parseOptions o) = false) :
  (Legacy.scanSync w o st).1 = (sync w o st).1
  /\ (Legacy.scan w o st).1 = (scan w o st).1
  /\ parentPackageDirectoriesCache (Legacy.scanSync w o st).2
     = parentPackageDirectoriesCache st
  /\ parentPackageDirectoriesCache (Legacy.scan w o st).2
     = parentPackageDirectoriesCache st
  /\ coherent w (Legacy.scanSync w o st).2
  /\ coherent w (Legacy.scan w o st).2.
Proof.
  destruct (legacy_sync_coherent w o st Hst) as (Hs & Hsp & _ & Hsc).
  destruct (legacy_async_coherent w o st Hst) as (Ha & Hap & Hac).
  destruct (sync_coherent w o st Hst) as [Hs' _].
  destruct (scan_coherent w o st Hst) as [Ha' _].
  rewrite Hs, Ha, Hs', Ha'. unfold legacyScanResult, scanResult.
  rewrite (legacyBaseDirectory_agrees w _ Hstart).
  split; [reflexivity|]. split; [reflexivity|]. split; [exact Hsp|].
  split; [exact Hap|]. split; [exact Hsc | exact Hac].
Qed.

Lemma legacy_scan_agrees_witness :
  (Legacy.scanSync flat_world (Some (with_path "/tmp/fixtures/flat/index.js" true)) initial).1
  = (sync flat_world (Some (with_path "/tmp/fixtures/flat/index.js" true)) initial).1.
Proof.
  refine (proj1 (legacy_scan_agrees flat_world
                   (Some (with_path "/tmp/fixtures/flat/index.js" true)) initial
                   (coherent_initial _) _)).
  by vm_compute.
Defined.

(** X22: where the revisions differ.  For a path that no package owns, the
    earlier revision scans the directory above the path, whatever the path
    is, and never asks [fs.stat]; the current revision asks [fs.stat],
    scans the path itself when it is a directory, and fails when [fs.stat]
    fails. *)
Theorem legacy_scans_above_path (w : World) (o : Options) (p : string) (st : State)
    (Hst : coherent w st)
    (Hpath : path o = Some p)
    (Hnone : pkgDir w p = None) :
  (Legacy.scanSync w (Some o) st).1
  = Normal (Plain (packagesAt w (availablePackagePaths w (path.dirname p))))
  /\ logged is_stat (Legacy.scanSync w (Some o) st).2 = logged is_stat st
  /\ (sync w (Some o) st).1
     = match stat w p with
       | inl code => Throw (SystemError code "stat" p)
       | inr isDirectory =>
           Normal (Plain (packagesAt w (availablePackagePaths w
                            (if isDirectory then p else path.dirname p))))
       end.
Proof.
  destruct (legacy_sync_coherent w (Some o) st Hst) as (Hs & _ & Hlog & _).
  destruct (sync_coherent w (Some o) st Hst) as [Hs' _].
  rewrite Hs, Hs'.
  unfold legacyScanResult, legacyBaseDirectory, scanResult, baseDirectory, resolvePackage.
  cbn [PacScan._parseOptions path]. rewrite Hpath, Hnone.
  cbn [fmap option_fmap option_map].
  split; [reflexivity|]. split; [exact Hlog|]. by destruct (stat w p).
Qed.

Lemma legacy_scans_above_path_witness :
  let foo := {| directory := "/tmp/fixtures/unpackaged/node_modules/foo";
                main := Some "/tmp/fixtures/unpackaged/node_modules/foo/index.js";
                name := "foo"; version := "1.1.0" |} in
  let bar := {| directory := "/tmp/fixtures/unpackaged/node_modules/foo/node_modules/bar";
                main := Some "/tmp/fixtures/unpackaged/node_modules/foo/node_modules/bar/index";
                name := "bar"; version := "1.2.0" |} in
  (Legacy.scanSync unpackaged_world
     (Some (with_path "/tmp/fixtures/unpackaged/node_modules" false)) initial).1
  = Normal (Plain [bar; foo])
  /\ (sync unpackaged_world
        (Some (with_path "/tmp/fixtures/unpackaged/node_modules" false)) initial).1
     = Normal (Plain [bar])
  /\ (Legacy.scanSync unpackaged_world
        (Some (with_path "/tmp/fixtures/unpackaged/missing.js" false)) initial).1
     = Normal (Plain [bar; foo])
  /\ (sync unpackaged_world
        (Some (with_path "/tmp/fixtures/unpackaged/missing.js" false)) initial).1
     = Throw (SystemError "ENOENT" "stat" "/tmp/fixtures/unpackaged/missing.js").
Proof.
  intros foo bar.
  assert (Hnone1 : pkgDir unpackaged_world "/tmp/fixtures/unpackaged/node_modules" = None)
    by (vm_compute; reflexivity).
  assert (Hnone2 : pkgDir unpackaged_world "/tmp/fixtures/unpackaged/missing.js" = None)
    by (vm_compute; reflexivity).
  destruct (legacy_scans_above_path unpackaged_world
              (with_path "/tmp/fixtures/unpackaged/node_modules" false)
              "/tmp/fixtures/unpackaged/node_modules"
              initial (coherent_initial _) eq_refl Hnone1) as (Hold1 & _ & Hnew1).
  destruct (legacy_scans_above_path unpackaged_world
              (with_path "/tmp/fixtures/unpackaged/missing.js" false)
              "/tmp/fixtures/unpackaged/missing.js"
              initial (coherent_initial _) eq_refl Hnone2) as (Hold2 & _ & Hnew2).
  rewrite Hold1, Hnew1, Hold2, Hnew2. repeat split; vm_compute; reflexivity.
Defined.
